(** * pysysp: synthetic stellar photometry

    A shallow embedding of [pysysp/pysysp.py] and [pysysp/extinction.py].

    Numbers.  Python floats and numpy [float64] values are modelled by the
    real numbers of the Standard Library: every arithmetic operation denotes
    its exact mathematical result.  Rounding, infinities and NaN are not
    represented; where numpy would produce [inf] or [nan] (a zero divisor,
    the logarithm of a non-positive number) the model yields whatever real
    number [Rinv] and [ln] give there.  Comparisons are the usual order of
    the reals, turned into booleans.

    Arrays.  A one-dimensional numpy array is a [list R].

    Exceptions.  A Python call either returns a value or raises; this is the
    [result] type, sequenced by a small error monad.  Methods of an object
    run in [Meth], which also threads the receiver ([self]). *)

From Stdlib Require Import Reals Lra Lia List String Bool Arith ZArith Sorted.
Import ListNotations.

Open Scope string_scope.
Open Scope list_scope.
Open Scope R_scope.

(** ** Exceptions and the error monad *)

Inductive exn : Type :=
| ValueError (msg : string)
| TypeError (msg : string)
| IndexError (msg : string)
| AttributeError (msg : string).

Inductive result (A : Type) : Type :=
| Ok (a : A)
| Raise (e : exn).

Arguments Ok {A} a.
Arguments Raise {A} e.

Definition rbind {A B : Type} (m : result A) (k : A -> result B) : result B :=
  match m with
  | Ok a => k a
  | Raise e => Raise e
  end.

Declare Scope result_scope.
Delimit Scope result_scope with result.
Notation "x <- m ;; k" := (rbind m (fun x => k))
  (at level 61, m at next level, right associativity) : result_scope.
Open Scope result_scope.

Definition raises {A : Type} (m : result A) : Prop :=
  exists e, m = Raise e.

Definition returns {A : Type} (m : result A) : Prop :=
  exists a, m = Ok a.

(** [mapM f l] runs [f] on the elements of [l] from left to right and stops
    at the first one that raises: a Python [for] loop with [append]. *)
Fixpoint mapM {A B : Type} (f : A -> result B) (l : list A) : result (list B) :=
  match l with
  | [] => Ok []
  | a :: l' => b <- f a ;; bs <- mapM f l' ;; Ok (b :: bs)
  end.

(** ** Comparisons on floats *)

Definition Rltb (a b : R) : bool := if Rlt_dec a b then true else false.
Definition Rleb (a b : R) : bool := if Rle_dec a b then true else false.

Infix "<?" := Rltb (at level 70, no associativity) : R_scope.
Infix "<=?" := Rleb (at level 70, no associativity) : R_scope.

(** ** The part of numpy the package uses *)

Module Np.

Abbreviation array := (list R).

(** A Python value that is either [None] or a float, as [np.max] returns
    when handed an attribute that may still be [None]. *)
Definition pyfloat := option R.

Definition zero_size (op : string) : exn :=
  ValueError ("zero-size array to reduction operation " ++ op
              ++ " which has no identity")%string.

(** [np.max(a)]: [None] goes through unchanged (a 0-d object array), an
    empty array raises, otherwise the largest element. *)
Definition max (a : option array) : result pyfloat :=
  match a with
  | None => Ok None
  | Some [] => Raise (zero_size "maximum")
  | Some (x :: xs) => Ok (Some (fold_left Rmax xs x))
  end.

Definition min (a : option array) : result pyfloat :=
  match a with
  | None => Ok None
  | Some [] => Raise (zero_size "minimum")
  | Some (x :: xs) => Ok (Some (fold_left Rmin xs x))
  end.

(** [a < b] and [a > b] on values that may be [None]. *)
Definition lt (a b : pyfloat) : result bool :=
  match a, b with
  | Some x, Some y => Ok (x <? y)
  | _, _ => Raise (TypeError "'<' not supported between these instances")
  end.

Definition gt (a b : pyfloat) : result bool :=
  match a, b with
  | Some x, Some y => Ok (y <? x)
  | _, _ => Raise (TypeError "'>' not supported between these instances")
  end.

(** [np.where(mask)]: the positions at which [mask] holds, increasing. *)
Fixpoint where_from (i : nat) (mask : list bool) : list nat :=
  match mask with
  | [] => []
  | b :: mask' =>
      if b then i :: where_from (S i) mask' else where_from (S i) mask'
  end.

Definition where_ (mask : list bool) : list nat := where_from 0 mask.

(** [a[r]] for an index array [r]: [None] is not subscriptable, an index
    past the end raises. *)
Definition take (a : option array) (r : list nat) : result array :=
  match a with
  | None => Raise (TypeError "'NoneType' object is not subscriptable")
  | Some l =>
      mapM (fun i =>
              match nth_error l i with
              | Some x => Ok x
              | None => Raise (IndexError "index out of bounds")
              end) r
  end.

Definition shape_error : exn :=
  ValueError "operands could not be broadcast together".

Fixpoint zip_with (f : R -> R -> R) (a b : array) : array :=
  match a, b with
  | x :: a', y :: b' => f x y :: zip_with f a' b'
  | _, _ => []
  end.

(** An element-wise binary operation on two one-dimensional arrays, with
    numpy's broadcasting: equal lengths pair up, a length-one operand is
    stretched, anything else raises. *)
Definition broadcast (f : R -> R -> R) (a b : array) : result array :=
  if Nat.eqb (List.length a) (List.length b) then Ok (zip_with f a b)
  else match a, b with
       | [x], _ => Ok (map (f x) b)
       | _, [y] => Ok (map (fun x => f x y) a)
       | _, _ => Raise shape_error
       end.

Definition mul : array -> array -> result array := broadcast Rmult.
Definition add : array -> array -> result array := broadcast Rplus.
Definition div : array -> array -> result array := broadcast Rdiv.

(** Operations between an array and a scalar. *)
Definition muls (a : array) (k : R) : array := map (fun x => x * k) a.
Definition smul (k : R) (a : array) : array := map (fun x => k * x) a.
Definition divs (a : array) (k : R) : array := map (fun x => x / k) a.

(** [k ** a] for a positive scalar base. *)
Definition spow (k : R) (a : array) : array := map (fun x => Rpower k x) a.

Definition sum (a : array) : R := fold_left Rplus a 0.

(** [np.diff(x)], [y[1:]] and [y[:-1]]. *)
Fixpoint diff (x : array) : array :=
  match x with
  | x0 :: (x1 :: _) as x' => (x1 - x0) :: diff x'
  | _ => []
  end.

Definition tail (y : array) : array := tl y.
Definition init (y : array) : array := removelast y.

(** [np.trapz(y, x=x)]:
    [d = diff(x); (d * (y[1:] + y[:-1]) / 2.0).sum()]. *)
Definition trapz (y x : array) : result R :=
  let d := diff x in
  s <- add (tail y) (init y) ;;
  p <- mul d s ;;
  Ok (sum (divs p 2.0)).

(** [np.log10] on a scalar. *)
Definition log10 (x : R) : R := ln x / ln 10.

End Np.

(** ** scipy.interpolate.interp1d

    The interpolation kernels themselves (splines of the various kinds) are
    scipy's; [kernel kind x y w] stands for the value the interpolant of
    that [kind] through the samples [(x, y)] takes at an in-range [w], and
    [reject kind x y] for the validation scipy performs when the object is
    built.  What is written out is the part the package configures: the
    treatment of abscissae outside the sampled range, governed by
    [bounds_error] and [fill_value]. *)

Module Scipy.

Import Np.

Record interp1d_t : Type := mk_interp1d {
  x : array;
  y : array;
  kind : string;
  bounds_error : bool;
  fill_value : R
}.

(** scipy sorts the abscissae when the object is built, so the ends of
    its range, [x[0]] and [x[-1]], are the least and the greatest
    sample. *)
Definition x_first (f : interp1d_t) : R := fold_left Rmin (tl (x f)) (hd 0 (x f)).
Definition x_last (f : interp1d_t) : R := fold_left Rmax (tl (x f)) (hd 0 (x f)).

Definition below_bounds (f : interp1d_t) (w : R) : bool := w <? x_first f.
Definition above_bounds (f : interp1d_t) (w : R) : bool := x_last f <? w.

Section Kernel.

Variable kernel : string -> array -> array -> R -> R.
Variable reject : string -> array -> array -> option exn.

Definition interp1d (xs ys : array) (k : string) (be : bool) (fv : R)
  : result interp1d_t :=
  match reject k xs ys with
  | Some e => Raise e
  | None => Ok (mk_interp1d xs ys k be fv)
  end.

(** The entry of [f(x_new)] for the abscissa [w] when the call does
    not raise. *)
Definition value_at (f : interp1d_t) (w : R) : R :=
  if below_bounds f w || above_bounds f w then fill_value f
  else kernel (kind f) (x f) (y f) w.

(** [f(x_new)]: evaluate everywhere, then refuse or overwrite the
    out-of-range entries. *)
Definition call (f : interp1d_t) (x_new : array) : result array :=
  if bounds_error f && existsb (below_bounds f) x_new then
    Raise (ValueError "A value in x_new is below the interpolation range.")
  else if bounds_error f && existsb (above_bounds f) x_new then
    Raise (ValueError "A value in x_new is above the interpolation range.")
  else Ok (map (value_at f) x_new).

End Kernel.

End Scipy.

(** ** pysysp/extinction.py *)

Module Extinction.

Import Np.

(** ['%f' % (1./0.3*1.e4)] and ['%f' % (1./10.*1.e4)], formatted. *)
Definition too_long : exn :=
  ValueError "Law not defined for wavelength larger than 33333.333333".
Definition too_short : exn :=
  ValueError "Law not defined for wavelength smaller than 1000.000000".

(** The coefficient pairs [(a, b)] of the four regions.  A power with an
    integral literal exponent ([y**2.]) is the corresponding product; the
    one fractional exponent, [X**1.61], has a positive base. *)
Definition infrared (X : R) : R * R :=
  let a := 0.574 * Rpower X 1.61 in
  let b := -0.527 * Rpower X 1.61 in
  (a, b).

Definition optical (X : R) : R * R :=
  let y := X - 1.82 in
  let a := 1 + 0.17699 * y - 0.50447 * y^2 - 0.02427 * y^3 + 0.72085 * y^4
           + 0.01979 * y^5 - 0.77530 * y^6 + 0.32999 * y^7 in
  let b := 1.41338 * y + 2.28305 * y^2 + 1.07233 * y^3 - 5.38434 * y^4
           - 0.62251 * y^5 + 5.30260 * y^6 - 2.09002 * y^7 in
  (a, b).

(** The correction [(Fa, Fb)] of the ultraviolet region, as computed when
    [X >= 5.9]. *)
Definition far_correction (X : R) : R * R :=
  let Fa := -0.04473 * (X - 5.9)^2 - 0.009779 * (X - 5.9)^3 in
  let Fb := 0.2130 * (X - 5.9)^2 - 0.1207 * (X - 5.9)^3 in
  (Fa, Fb).

Definition ultraviolet (X : R) (F : R * R) : R * R :=
  let '(Fa, Fb) := F in
  let a := 1.752 - 0.316 * X - 0.104 / ((X - 4.67)^2 + 0.341) + Fa in
  let b := -3.090 + 1.825 * X + 1.206 / ((X - 4.62)^2 + 0.263) + Fb in
  (a, b).

Definition far_ultraviolet (X : R) : R * R :=
  let a := -1.073 - 0.628 * (X - 8) + 0.137 * (X - 8)^2 - 0.070 * (X - 8)^3 in
  let b := 13.670 + 4.257 * (X - 8) - 0.420 * (X - 8)^2 + 0.374 * (X - 8)^3 in
  (a, b).

(** [X] as the loop body computes it from a wavelength in Angstrom. *)
Definition inverse_micron (w : R) : R :=
  let X := w * 1e-4 in
  1 / X.

(** The [if]/[elif] chain of the loop body. *)
Definition coefficients (X : R) : result (R * R) :=
  if X <? 0.3 then Raise too_long
  else if (0.3 <=? X) && (X <? 1.1) then Ok (infrared X)
  else if (1.1 <=? X) && (X <? 3.3) then Ok (optical X)
  else if (3.3 <=? X) && (X <? 8) then
    let F := if 5.9 <=? X then far_correction X else (0, 0) in
    Ok (ultraviolet X F)
  else if (8 <=? X) && (X <? 10) then Ok (far_ultraviolet X)
  else Raise too_short.

Definition extinction_at (A Rv : R) (w : R) : result R :=
  let X := inverse_micron w in
  ab <- coefficients X ;;
  let '(a, b) := ab in
  Ok (A * (a + b / Rv)).

Definition cardelli (wavelength : array) (A Rv : R) : result array :=
  mapM (extinction_at A Rv) wavelength.

(** Keyword arguments, as [extinction] forwards them with [**kwargs]. *)
Definition kwargs := list (string * R).

Fixpoint kwarg (key : string) (default : R) (kw : kwargs) : R :=
  match kw with
  | [] => default
  | (k, v) :: kw' => if String.eqb k key then v else kwarg key default kw'
  end.

(** [cardelli(wavelength, **kwargs)] with the defaults [A=0., Rv=3.1];
    any other keyword is refused by the call itself. *)
Definition cardelli_kw (wavelength : array) (kw : kwargs) : result array :=
  if forallb (fun kv => String.eqb (fst kv) "A" || String.eqb (fst kv) "Rv") kw
  then cardelli wavelength (kwarg "A" 0 kw) (kwarg "Rv" 3.1 kw)
  else Raise (TypeError "cardelli() got an unexpected keyword argument").

Definition law := array -> kwargs -> result array.

End Extinction.

(** ** Receivers, warnings and the method monad *)

Record outcome (S A : Type) : Type := mk_outcome {
  value : result A;
  self : S;
  warned : list string
}.

Arguments mk_outcome {S A} value self warned.
Arguments value {S A} o.
Arguments self {S A} o.
Arguments warned {S A} o.

(** A method body: from the receiver before the call to what the call
    returns or raises, the receiver afterwards and the warnings issued. *)
Definition Meth (S A : Type) : Type := S -> outcome S A.

Definition ret {S A : Type} (a : A) : Meth S A :=
  fun s => mk_outcome (Ok a) s [].

Definition raise {S A : Type} (e : exn) : Meth S A :=
  fun s => mk_outcome (Raise e) s [].

Definition mbind {S A B : Type} (m : Meth S A) (k : A -> Meth S B) : Meth S B :=
  fun s =>
    let o := m s in
    match value o with
    | Ok a =>
        let o' := k a (self o) in
        mk_outcome (value o') (self o') (warned o ++ warned o')
    | Raise e => mk_outcome (Raise e) (self o) (warned o)
    end.

(** A body that only reads its receiver. *)
Definition reads {S A : Type} (f : S -> result A) : Meth S A :=
  fun s => mk_outcome (f s) s [].

(** An assignment to attributes of the receiver. *)
Definition assign {S : Type} (f : S -> S) : Meth S unit :=
  fun s => mk_outcome (Ok tt) (f s) [].

Definition warn {S : Type} (msg : string) : Meth S unit :=
  fun s => mk_outcome (Ok tt) s [msg].

Declare Scope meth_scope.
Delimit Scope meth_scope with meth.
Bind Scope meth_scope with Meth.
Notation "x <- m ;; k" := (mbind m (fun x => k))
  (at level 61, m at next level, right associativity) : meth_scope.
Notation "m ;; k" := (mbind m (fun _ => k))
  (at level 61, right associativity) : meth_scope.

(** ** pysysp/pysysp.py *)

(** A two-dimensional array as [np.loadtxt] returns it, by columns, or a
    one-dimensional one. *)
Inductive ndarray : Type :=
| Table (columns : list Np.array)
| Vector (entries : Np.array).

(** [data[:, j]]. *)
Definition column (data : ndarray) (j : nat) : result Np.array :=
  match data with
  | Vector _ => Raise (IndexError "too many indices for array")
  | Table cols =>
      match nth_error cols j with
      | Some col => Ok col
      | None => Raise (IndexError "index is out of bounds for axis 1")
      end
  end.

(** A Python [dict] with string keys, read with [in] and [[]]. *)
Definition dict (V : Type) : Type := list (string * V).

Fixpoint lookup {V : Type} (key : string) (d : dict V) : option V :=
  match d with
  | [] => None
  | (k, v) :: d' => if String.eqb k key then Some v else lookup key d'
  end.

(** What the module finds around itself when it is imported and used: the
    files it reads, the registry imported from [extinction], and scipy. *)
Record World : Type := mk_World {
  (** the columns of [alpha_lyr_stis_006.fits] *)
  vegawavelength : Np.array;
  vegaflux : Np.array;
  (** [from .extinction import extlaws] *)
  extlaws : dict Extinction.law;
  (** filter name to path, filled by [_listfiles(filterdir)] *)
  listfilters : dict string;
  (** [_file_exists] *)
  file_exists : string -> bool;
  (** [np.loadtxt] *)
  loadtxt : string -> result ndarray;
  (** [os.path.splitext(os.path.basename(filename))[0]] *)
  stem : string -> string;
  (** scipy's interpolation kernels and constructor checks *)
  kernel : string -> Np.array -> Np.array -> R -> R;
  reject : string -> Np.array -> Np.array -> option exn
}.

(** speed of light in Angstrom/sec, and the magnitude zero points *)
Definition c : R := 2.99792458e18.
Definition abzero : R := -48.60.
Definition stzero : R := -21.10.

Definition listlaws (W : World) : list string := map fst (extlaws W).

Module BandPass.

Record t : Type := mk {
  wavelength : option Np.array;
  flux : option Np.array;
  name : option string;
  interpolated_response : option Scipy.interp1d_t;
  _smt : string;
  (** [None] while the attribute has not been created *)
  response : option Np.array
}.

(** The instance as Python hands it to [__init__]. *)
Definition blank : t := mk None None None None "" None.

Definition smoothings : list string :=
  ["linear"; "nearest"; "zero"; "slinear"; "quadratic"; "cubic"].

Definition truthy (band : option string) : bool :=
  match band with
  | None => false
  | Some s => negb (String.eqb s "")
  end.

Section Methods.

Variable W : World.

Definition loadascii (filename : string) : Meth t unit :=
  (data <- reads (fun _ => loadtxt W filename) ;;
   assign (fun b => mk (wavelength b) (flux b) (Some (stem W filename))
                       (interpolated_response b) (_smt b) (response b)) ;;
   col0 <- reads (fun _ => column data 0) ;;
   assign (fun b => mk (Some col0) (flux b) (name b)
                       (interpolated_response b) (_smt b) (response b)) ;;
   col1 <- reads (fun _ => column data 1) ;;
   assign (fun b => mk (wavelength b) (flux b) (name b)
                       (interpolated_response b) (_smt b) (Some col1)))%meth.

(** [scipy.interpolate] is imported at the top of the module, so the
    name [interpolate] is never [None] and the [np.interp] fallback is
    not reachable. *)
Definition smooth (kind : string) : Meth t unit :=
  (f <- reads (fun b =>
         match response b with
         | None => Raise (AttributeError "'BandPass' object has no attribute 'response'")
         | Some ys =>
             match wavelength b with
             | None => Raise (ValueError "the x array must have exactly one dimension.")
             | Some xs =>
                 Scipy.interp1d (reject W) xs ys kind false 0
             end
         end) ;;
   assign (fun b => mk (wavelength b) (flux b) (name b) (Some f)
                       (_smt b) (response b)))%meth.

(** The block both branches of [__init__] run once a source for the
    band has been found. *)
Definition load_and_smooth (path : string) : Meth t unit :=
  (loadascii path ;;
   s <- reads (fun b => Ok (_smt b)) ;;
   if existsb (String.eqb s) smoothings then smooth s
   else raise (ValueError "Unknown type of smoothing"))%meth.

Definition __init__ (band : option string) (smt : string) : Meth t unit :=
  (assign (fun _ => mk None None None None smt None) ;;
   match band with
   | Some b =>
       if truthy band then
         match lookup b (listfilters W) with
         | Some path => load_and_smooth path
         | None =>
             if file_exists W b then load_and_smooth b
             else warn ("Warning: Could not find filter or file " ++ b ++ " ")%string
         end
       else ret tt
   | None => ret tt
   end)%meth.

(** [BandPass(band, smt)]: the new object, unless [__init__] raises. *)
Definition new (band : option string) (smt : string) : outcome t unit :=
  __init__ band smt blank.

(** [band(w)]. *)
Definition __call__ (b : t) (w : Np.array) : result Np.array :=
  match interpolated_response b with
  | None => Raise (TypeError "'NoneType' object is not callable")
  | Some f => Scipy.call (kernel W) f w
  end.

End Methods.

End BandPass.

Module StarSpectrum.

Record t : Type := mk {
  wavelength : option Np.array;
  flux : option Np.array;
  _file : option string
}.

Definition overlap_error : exn :=
  ValueError "Bandpass and spectrum must completely overlap.".

(** The defaults of [apmag(self, band, mag='Vega', mzero=0.)]. *)
Definition default_mag : string := "Vega".
Definition default_mzero : R := 0.

Definition _waverange (wb ws : option Np.array) : result (list nat) :=
  wbmax <- Np.max wb ;;
  wbmin <- Np.min wb ;;
  wsmax <- Np.max ws ;;
  wsmin <- Np.min ws ;;
  low <- Np.lt wbmin wsmin ;;
  high <- (if low then Ok true else Np.gt wbmax wsmax) ;;
  if high then Raise overlap_error
  else
    match ws, wbmax, wbmin with
    | Some ws, Some wbmax, Some wbmin =>
        Ok (Np.where_ (map (fun w => (w <=? wbmax) && (wbmin <=? w)) ws))
    | _, _, _ => Raise (TypeError "'<=' not supported between these instances")
    end.

Definition setflux (flux : Np.array) : Meth t unit :=
  assign (fun s => mk (wavelength s) (Some flux) (_file s)).

Definition setwavelength (w : Np.array) : Meth t unit :=
  assign (fun s => mk (Some w) (flux s) (_file s)).

(** Scale the flux by [theta**2]. *)
Definition reflux (theta : R) : Meth t unit :=
  (fl <- reads (fun s =>
          match flux s with
          | Some fl => Ok fl
          | None => Raise (TypeError "unsupported operand type(s) for *")
          end) ;;
   assign (fun s => mk (wavelength s) (Some (Np.muls fl (theta ^ 2))) (_file s)))%meth.

Section Methods.

Variable W : World.

(** [np.trapz(fr * band(wr) * wr, x=wr)], which all three systems and
    the extinction share. *)
Definition band_flux (band : BandPass.t) (fr wr : Np.array) : result R :=
  bw <- BandPass.__call__ W band wr ;;
  p <- Np.mul fr bw ;;
  p <- Np.mul p wr ;;
  Np.trapz p wr.

Definition apmag (band : BandPass.t) (mag : string) (mzero : R) : Meth t R :=
  reads (fun self =>
    r <- _waverange (BandPass.wavelength band) (wavelength self) ;;
    wr <- Np.take (wavelength self) r ;;
    fr <- Np.take (flux self) r ;;
    if String.eqb mag "AB" then
      num <- band_flux band fr wr ;;
      bw <- BandPass.__call__ W band wr ;;
      q <- Np.div (Np.muls bw c) wr ;;
      den <- Np.trapz q wr ;;
      let f := num / den in
      Ok (-2.5 * Np.log10 f + abzero)
    else if String.eqb mag "ST" then
      num <- band_flux band fr wr ;;
      bw <- BandPass.__call__ W band wr ;;
      q <- Np.mul bw wr ;;
      den <- Np.trapz q wr ;;
      let f := num / den in
      Ok (-2.5 * Np.log10 f + stzero)
    else if String.eqb mag "Vega" then
      vegar <- _waverange (BandPass.wavelength band) (Some (vegawavelength W)) ;;
      vegawr <- Np.take (Some (vegawavelength W)) vegar ;;
      vegafr <- Np.take (Some (vegaflux W)) vegar ;;
      f <- band_flux band fr wr ;;
      vega_f <- band_flux band vegafr vegawr ;;
      Ok (-2.5 * Np.log10 f + 2.5 * Np.log10 vega_f + mzero)
    else
      Raise (ValueError "Magnitude system is not a valid choice, check input string")).

Definition extinction (band : BandPass.t) (law : string)
           (kwargs : Extinction.kwargs) : Meth t R :=
  reads (fun self =>
    r <- _waverange (BandPass.wavelength band) (wavelength self) ;;
    wr <- Np.take (wavelength self) r ;;
    fr <- Np.take (flux self) r ;;
    f <- match lookup law (extlaws W) with
         | Some the_law =>
             bw <- BandPass.__call__ W band wr ;;
             p <- Np.mul fr bw ;;
             p <- Np.mul p wr ;;
             ext <- the_law wr kwargs ;;
             p <- Np.mul p (Np.spow 10 (Np.smul (-0.4) ext)) ;;
             num <- Np.trapz p wr ;;
             den <- band_flux band fr wr ;;
             Ok (num / den)
         | None =>
             Raise (ValueError "Extinction law is not a valid choice, check input string")
         end ;;
    Ok (-2.5 * Np.log10 f)).

End Methods.

End StarSpectrum.

(** ** The specification's vocabulary *)

Module Spec.

(** Least and greatest element of a sequence of wavelengths. *)
Definition is_min (m : R) (l : list R) : Prop :=
  In m l /\ forall v, In v l -> m <= v.

Definition is_max (m : R) (l : list R) : Prop :=
  In m l /\ forall v, In v l -> v <= m.

(** The bandpass range [lo, hi] sticks out of the range [slo, shi]. *)
Definition sticks_out (lo hi slo shi : R) : Prop :=
  lo < slo \/ hi > shi.

(** [lo <= w <= hi]. *)
Definition within (lo hi w : R) : bool := (lo <=? w) && (w <=? hi).

(** The integration grid: the samples [(w, f)] of a curve whose
    wavelength lies in [lo, hi], in their original order. *)
Definition grid (lo hi : R) (ws fs : list R) : list (R * R) :=
  filter (fun p => within lo hi (fst p)) (combine ws fs).

(** The trapezoidal rule through the points [(x, y)], in the order
    given: the sum of [(x' - x) * (y + y') / 2] over consecutive
    points. *)
Fixpoint trapezoid (pts : list (R * R)) : R :=
  match pts with
  | (x0, y0) :: ((x1, y1) :: _) as rest =>
      (x1 - x0) * (y0 + y1) / 2 + trapezoid rest
  | _ => 0
  end.

(** [T g] over a grid: the trapezoidal rule applied to the integrand
    [g w f] sampled at the grid's own wavelengths. *)
Definition T (g : R -> R -> R) (pts : list (R * R)) : R :=
  trapezoid (map (fun p => (fst p, g (fst p) (snd p))) pts).

(** The same with a third value attached to every grid point. *)
Definition T3 (g : R -> R -> R -> R) (pts : list (R * R * R)) : R :=
  trapezoid (map (fun p => (fst (fst p), g (fst (fst p)) (snd (fst p)) (snd p))) pts).

End Spec.

(** ** Further notions the properties are stated with *)

(** A call ends otherwise than by raising the overlap error. *)
Definition foreign {A : Type} (m : result A) : Prop :=
  m <> Raise StarSpectrum.overlap_error.

(** The products [d * (y[1:] + y[:-1])] that [np.trapz] sums. *)
Definition slabs (x y : list R) : list R :=
  Np.zip_with Rmult (Np.diff x) (Np.zip_with Rplus (Np.tail y) (Np.init y)).

(** The coefficient pair the law's table assigns to [X] inside its domain
    [0.3 <= X < 10]: infrared below 1.1, optical below 3.3, ultraviolet
    below 8 (with the far-ultraviolet correction from 5.9 on), far
    ultraviolet from 8 on. *)
Definition region_coefficients (X : R) : R * R :=
  if X <? 1.1 then Extinction.infrared X
  else if X <? 3.3 then Extinction.optical X
  else if X <? 5.9 then Extinction.ultraviolet X (0, 0)
  else if X <? 8 then Extinction.ultraviolet X (Extinction.far_correction X)
  else Extinction.far_ultraviolet X.

(** [A*(a + b/Rv)] for a coefficient pair. *)
Definition scaled (A Rv : R) (ab : R * R) : R := A * (fst ab + snd ab / Rv).

(** The extinction the law assigns to one wavelength of its domain. *)
Definition law_value (A Rv w : R) : R :=
  scaled A Rv (region_coefficients (1e4 / w)).

(** The distance, at [X], between the values of two regions' formulas. *)
Definition gap (below above : R -> R * R) (X A Rv : R) : R :=
  Rabs (scaled A Rv (below X) - scaled A Rv (above X)).

(** The ultraviolet formula without and with its far-ultraviolet
    correction: the two sides of the boundary at 5.9. *)
Definition ultraviolet_plain (X : R) : R * R :=
  Extinction.ultraviolet X (0, 0).

Definition ultraviolet_far (X : R) : R * R :=
  Extinction.ultraviolet X (Extinction.far_correction X).

(** Continuity at the four region boundaries, each within the tolerance
    [tol]. *)
Definition continuous_within (tol A Rv : R) : Prop :=
  gap Extinction.infrared Extinction.optical 1.1 A Rv <= tol
  /\ gap Extinction.optical ultraviolet_plain 3.3 A Rv <= tol
  /\ gap ultraviolet_plain ultraviolet_far 5.9 A Rv <= tol
  /\ gap ultraviolet_far Extinction.far_ultraviolet 8.0 A Rv <= tol.

(** The errors [apmag], [extinction] and [BandPass] raise on a name they do
    not know. *)
Definition invalid_system : exn :=
  ValueError "Magnitude system is not a valid choice, check input string".

Definition invalid_law : exn :=
  ValueError "Extinction law is not a valid choice, check input string".

(** The attributes an interpolant built by the package has: it does not
    raise out of range, fills with zero, and was built over the wavelengths
    the bandpass holds. *)
Definition built (b : BandPass.t) : Prop :=
  match BandPass.interpolated_response b with
  | None => True
  | Some f => Scipy.bounds_error f = false /\ Scipy.fill_value f = 0
              /\ BandPass.wavelength b = Some (Scipy.x f)
  end.

Definition unknown_smoothing : exn := ValueError "Unknown type of smoothing".

(** The object [__init__] leaves when it loads nothing. *)
Definition unloaded (smt : string) : BandPass.t :=
  BandPass.mk None None None None smt None.

(** ** A small world to run the package in

    Piecewise-linear interpolation stands for scipy's kernels, a
    five-sample table for the reference spectrum, the registry holds the
    one law the package implements, and the filter library one filter. *)

Module Demo.

Fixpoint linear (xs ys : list R) (w : R) : R :=
  match xs, ys with
  | x0 :: (x1 :: _) as xs', y0 :: (y1 :: _) as ys' =>
      if w <=? x1 then y0 + (y1 - y0) * (w - x0) / (x1 - x0)
      else linear xs' ys' w
  | _, y0 :: _ => y0
  | _, _ => 0
  end.

Definition V_path : string := "filters/Bessel/V.dat".

Definition V_dat : ndarray :=
  Table [[5000; 5500; 6000]; [0; 1; 0]].

Definition world : World := {|
  vegawavelength := [1000; 5000; 5500; 6000; 10000];
  vegaflux := [3; 2; 2; 2; 1];
  extlaws := [("cardelli", Extinction.cardelli_kw)];
  listfilters := [("V", V_path)];
  file_exists := fun _ => false;
  loadtxt := fun path =>
    if String.eqb path V_path then Ok V_dat
    else Raise (ValueError "could not read the file");
  stem := fun path => if String.eqb path V_path then "V" else path;
  kernel := fun _ => linear;
  reject := fun _ _ _ => None
|}.

(** A flat bandpass over [5000, 6000] and a flat spectrum over
    [4000, 7000]. *)
Definition flat_band : BandPass.t :=
  BandPass.mk (Some [5000; 6000]) None (Some "flat")
              (Some (Scipy.mk_interp1d [5000; 6000] [1; 1] "slinear" false 0))
              "slinear" (Some [1; 1]).

Definition flat_star : StarSpectrum.t :=
  StarSpectrum.mk (Some [4000; 5000; 5500; 6000; 7000]) (Some [1; 1; 1; 1; 1]) None.

(** A bandpass and a spectrum in the far ultraviolet, short of the
    reference table. *)
Definition fuv_band : BandPass.t :=
  BandPass.mk (Some [200; 400]) None (Some "fuv")
              (Some (Scipy.mk_interp1d [200; 400] [1; 1] "slinear" false 0))
              "slinear" (Some [1; 1]).

Definition fuv_star : StarSpectrum.t :=
  StarSpectrum.mk (Some [100; 300; 500]) (Some [1; 1; 1]) None.

(** The filter of the library, as the constructor loads and smooths it. *)
Definition V : BandPass.t := self (BandPass.new world (Some "V") "linear").

(** [A=0.5, Rv=3.1] *)
Definition half_magnitude : Extinction.kwargs := [("A", 0.5); ("Rv", 3.1)].

End Demo.

(** ** Loading spectra, and the scan of the filter library

    The remaining functions of [pysysp.py] reach files through
    [astropy.io.fits] and [os]; those two are what [Disk] stands for. *)

Record Disk : Type := mk_Disk {
  (** [pyfits.open(file)[1].data.field(column)], with whatever opening the
      file or finding the column raises *)
  fits_field : string -> string -> result Np.array;
  (** [os.path.splitext(file)[1]] *)
  extension : string -> string;
  (** [os.walk(dirname)]: each directory with the files in it *)
  walk : string -> list (string * list string);
  (** [os.path.basename], [os.path.splitext(name)[0]] and [os.path.join] *)
  basename : string -> string;
  rootname : string -> string;
  join : string -> string -> string
}.

(** [d[key] = v] on a dictionary: an existing key keeps its place and takes
    the new value, a new key goes to the end. *)
Fixpoint setitem {V : Type} (key : string) (v : V) (d : dict V) : dict V :=
  match d with
  | [] => [(key, v)]
  | (k, v') :: d' =>
      if String.eqb k key then (k, v) :: d' else (k, v') :: setitem key v d'
  end.

Module Library.

(** The two dictionaries of the module, [listfilters] and [showfilters]. *)
Record t : Type := mk {
  listfilters : dict string;
  showfilters : dict (list string)
}.

Section Scan.

Variable D : Disk.

(** The inner loop of [_listfiles] over the files of one directory:
    [listfilters] and the list [f] as they stand after it. *)
Definition scan_files (root : string) (files : list string)
           (lf : dict string) : dict string * list string :=
  fold_left
    (fun (acc : dict string * list string) (name : string) =>
       let key := rootname D name in
       (setitem key (join D root name) (fst acc), snd acc ++ [key]))
    files (lf, []).

(** The body of the outer loop, for one directory of the walk. *)
Definition scan_directory (lib : t) (entry : string * list string) : t :=
  let '(root, files) := entry in
  let fkey := basename D root in
  let '(lf, f) := scan_files root files (listfilters lib) in
  match f with
  | [] => mk lf (showfilters lib)
  | _ :: _ => mk lf (setitem fkey f (showfilters lib))
  end.

Definition _listfiles (dirname : string) (lib : t) : t :=
  fold_left scan_directory (walk D dirname) lib.

End Scan.

End Library.

Module GeneralSpectrum.

Section Loaders.

Variable W : World.
Variable D : Disk.

(** [loadfits(self, filename, wavename='Wavelength', fluxname='Flux')] *)
Definition loadfits (filename wavename fluxname : string) : Meth StarSpectrum.t unit :=
  (w <- reads (fun _ => fits_field D filename wavename) ;;
   assign (fun s => StarSpectrum.mk (Some w) (StarSpectrum.flux s) (StarSpectrum._file s)) ;;
   f <- reads (fun _ => fits_field D filename fluxname) ;;
   assign (fun s => StarSpectrum.mk (StarSpectrum.wavelength s) (Some f)
                                    (StarSpectrum._file s)))%meth.

(** [loadascii(self, filename)]: one column is a flux, two are wavelength
    and flux.  (A file holding a single number loads as a 0-d array, which
    [ndarray] does not represent; the method sets nothing then.) *)
Definition loadascii (filename : string) : Meth StarSpectrum.t unit :=
  (data <- reads (fun _ => loadtxt W filename) ;;
   match data with
   | Vector v =>
       assign (fun s => StarSpectrum.mk (StarSpectrum.wavelength s) (Some v)
                                        (StarSpectrum._file s))
   | Table _ =>
       col0 <- reads (fun _ => column data 0) ;;
       assign (fun s => StarSpectrum.mk (Some col0) (StarSpectrum.flux s)
                                        (StarSpectrum._file s)) ;;
       col1 <- reads (fun _ => column data 1) ;;
       assign (fun s => StarSpectrum.mk (StarSpectrum.wavelength s) (Some col1)
                                        (StarSpectrum._file s))
   end)%meth.

(** [StarSpectrum.__init__(self, file=None)] *)
Definition __init__ (file : option string) : Meth StarSpectrum.t unit :=
  (assign (fun _ => StarSpectrum.mk None None file) ;;
   match file with
   | Some path =>
       if BandPass.truthy file then
         if file_exists W path then
           let fextension := extension D path in
           if String.eqb fextension ".fits" || String.eqb fextension ".FITS"
           then loadfits path "Wavelength" "Flux"
           else loadascii path
         else warn ("Warning: Could not find file " ++ path
                    ++ " - no spectrum loaded")%string
       else ret tt
   | None => ret tt
   end)%meth.

(** The instance as Python hands it to [__init__], and [StarSpectrum(file)]. *)
Definition blank : StarSpectrum.t := StarSpectrum.mk None None None.

Definition new (file : option string) : outcome StarSpectrum.t unit :=
  __init__ file blank.

(** [Vega(file)]: the two columns of the reference spectrum. *)
Definition Vega (file : string) : result (Np.array * Np.array) :=
  vega_wavelength <- fits_field D file "Wavelength" ;;
  vega_flux <- fits_field D file "Flux" ;;
  Ok (vega_wavelength, vega_flux).

End Loaders.

End GeneralSpectrum.

(** The bindings [_listfiles] writes, in the order it writes them: one per
    file for [listfilters], one per directory holding files for
    [showfilters]. *)
Definition file_bindings (D : Disk) (dirname : string) : list (string * string) :=
  flat_map (fun entry : string * list string =>
              map (fun name => (rootname D name, join D (fst entry) name)) (snd entry))
           (walk D dirname).

Definition directory_bindings (D : Disk) (dirname : string)
  : list (string * list string) :=
  flat_map (fun entry : string * list string =>
              match snd entry with
              | [] => []
              | _ :: _ => [(basename D (fst entry), map (rootname D) (snd entry))]
              end)
           (walk D dirname).

(** A run of assignments [d[k] = v], first to last. *)
Definition setitems {V : Type} (bs : list (string * V)) (d : dict V) : dict V :=
  fold_left (fun acc kv => setitem (fst kv) (snd kv) acc) bs d.

(** The binding written last for [key], if any. *)
Definition last_binding {V : Type} (key : string) (bs : list (string * V)) : option V :=
  lookup key (rev bs).

(** A disk to go with the small world: one library directory with two
    filters and an empty one, and a two-column, a one-column and a FITS
    spectrum. *)
Module DemoDisk.

Definition disk : Disk := {|
  fits_field := fun file col =>
    if String.eqb file "vega.fits" then
      if String.eqb col "Wavelength" then Ok [1000; 5000; 5500; 6000; 10000]
      else if String.eqb col "Flux" then Ok [3; 2; 2; 2; 1]
      else Raise (ValueError "no such column")
    else Raise (ValueError "not a FITS file");
  extension := fun file =>
    if String.eqb file "vega.fits" then ".fits" else ".dat";
  walk := fun _ =>
    [("filters", []); ("filters/Bessel", ["V.dat"; "B.dat"]); ("filters/Empty", [])];
  basename := fun root =>
    if String.eqb root "filters/Bessel" then "Bessel"
    else if String.eqb root "filters/Empty" then "Empty" else root;
  rootname := fun name =>
    if String.eqb name "V.dat" then "V"
    else if String.eqb name "B.dat" then "B" else name;
  join := fun root name => (root ++ "/" ++ name)%string
|}.

(** The small world with three files on it. *)
Definition world : World := {|
  vegawavelength := vegawavelength Demo.world;
  vegaflux := vegaflux Demo.world;
  extlaws := extlaws Demo.world;
  listfilters := listfilters Demo.world;
  file_exists := fun path =>
    String.eqb path "vega.fits" || String.eqb path "star.dat"
    || String.eqb path "flux.dat";
  loadtxt := fun path =>
    if String.eqb path "star.dat" then
      Ok (Table [[4000; 5000; 5500; 6000; 7000]; [1; 1; 1; 1; 1]])
    else if String.eqb path "flux.dat" then Ok (Vector [1; 1; 1])
    else loadtxt Demo.world path;
  stem := stem Demo.world;
  kernel := kernel Demo.world;
  reject := reject Demo.world
|}.

End DemoDisk.

(** The value a call returns, transformed; what it raises, kept. *)
Definition rmap {A B : Type} (f : A -> B) (m : result A) : result B :=
  match m with
  | Ok a => Ok (f a)
  | Raise e => Raise e
  end.

(** The spectrum [reflux(theta)] leaves. *)
Definition refluxed (theta : R) (s : StarSpectrum.t) : StarSpectrum.t :=
  self (StarSpectrum.reflux theta s).

(** * Properties *)

(** ** Comparisons *)

Lemma Rltb_true_iff (a b : R) : (a <? b) = true <-> a < b.
Proof. unfold Rltb. destruct (Rlt_dec a b); split; intros; try discriminate; tauto. Qed.

Lemma Rltb_false_iff (a b : R) : (a <? b) = false <-> b <= a.
Proof.
  unfold Rltb. destruct (Rlt_dec a b); split; intros; try discriminate; try lra; reflexivity.
Qed.

Lemma Rleb_true_iff (a b : R) : (a <=? b) = true <-> a <= b.
Proof. unfold Rleb. destruct (Rle_dec a b); split; intros; try discriminate; tauto. Qed.

Lemma Rleb_false_iff (a b : R) : (a <=? b) = false <-> b < a.
Proof.
  unfold Rleb. destruct (Rle_dec a b); split; intros; try discriminate; try lra; reflexivity.
Qed.

(** Decide every comparison of the goal whose outcome [lra] can settle. *)
Ltac Rdecide :=
  repeat match goal with
    | |- context [?a <? ?b] =>
        first [ rewrite (proj2 (Rltb_true_iff a b)) by lra
              | rewrite (proj2 (Rltb_false_iff a b)) by lra ]
    | |- context [?a <=? ?b] =>
        first [ rewrite (proj2 (Rleb_true_iff a b)) by lra
              | rewrite (proj2 (Rleb_false_iff a b)) by lra ]
    | |- context [Rmin ?a ?b] =>
        first [ rewrite (Rmin_left a b) by lra | rewrite (Rmin_right a b) by lra ]
    | |- context [Rmax ?a ?b] =>
        first [ rewrite (Rmax_left a b) by lra | rewrite (Rmax_right a b) by lra ]
    end.

(** ** Reductions *)

(** Settle that a given number is the least or greatest of a literal list. *)
Ltac extremum :=
  split; [simpl; tauto | intros ? Hv; simpl in Hv; intuition lra].

Lemma fold_min_le (xs : list R) (x : R) :
  fold_left Rmin xs x <= x /\ forall v, In v xs -> fold_left Rmin xs x <= v.
Proof.
  revert x. induction xs as [|y ys IH]; intros x; simpl.
  - split; [lra | tauto].
  - destruct (IH (Rmin x y)) as [H1 H2]. split.
    + pose proof (Rmin_l x y). lra.
    + intros v [<- | Hv]; [pose proof (Rmin_r x y); lra | auto].
Qed.

Lemma fold_min_in (xs : list R) (x : R) : In (fold_left Rmin xs x) (x :: xs).
Proof.
  revert x. induction xs as [|y ys IH]; intros x; simpl; [auto|].
  destruct (IH (Rmin x y)) as [H | H]; [|auto].
  unfold Rmin in H at 1. destruct (Rle_dec x y); rewrite <- H; auto.
Qed.

Lemma fold_max_ge (xs : list R) (x : R) :
  x <= fold_left Rmax xs x /\ forall v, In v xs -> v <= fold_left Rmax xs x.
Proof.
  revert x. induction xs as [|y ys IH]; intros x; simpl.
  - split; [lra | tauto].
  - destruct (IH (Rmax x y)) as [H1 H2]. split.
    + pose proof (Rmax_l x y). lra.
    + intros v [<- | Hv]; [pose proof (Rmax_r x y); lra | auto].
Qed.

Lemma fold_max_in (xs : list R) (x : R) : In (fold_left Rmax xs x) (x :: xs).
Proof.
  revert x. induction xs as [|y ys IH]; intros x; simpl; [auto|].
  destruct (IH (Rmax x y)) as [H | H]; [|auto].
  unfold Rmax in H at 1. destruct (Rle_dec x y); rewrite <- H; auto.
Qed.

Lemma is_min_unique (l : list R) (m m' : R) :
  Spec.is_min m l -> Spec.is_min m' l -> m = m'.
Proof.
  intros [Hin Hle] [Hin' Hle']. apply Rle_antisym; auto.
Qed.

Lemma is_max_unique (l : list R) (m m' : R) :
  Spec.is_max m l -> Spec.is_max m' l -> m = m'.
Proof.
  intros [Hin Hle] [Hin' Hle']. apply Rle_antisym; auto.
Qed.

Lemma np_min_is_min (l : list R) (m : R) :
  Spec.is_min m l -> Np.min (Some l) = Ok (Some m).
Proof.
  intros Hm. destruct l as [|x xs]; [destruct Hm as [[] _]|].
  simpl. do 2 f_equal. apply (is_min_unique (x :: xs)); [|exact Hm].
  split; [apply fold_min_in|].
  destruct (fold_min_le xs x) as [H1 H2].
  intros v [<- | Hv]; auto.
Qed.

Lemma np_max_is_max (l : list R) (m : R) :
  Spec.is_max m l -> Np.max (Some l) = Ok (Some m).
Proof.
  intros Hm. destruct l as [|x xs]; [destruct Hm as [[] _]|].
  simpl. do 2 f_equal. apply (is_max_unique (x :: xs)); [|exact Hm].
  split; [apply fold_max_in|].
  destruct (fold_max_ge xs x) as [H1 H2].
  intros v [<- | Hv]; auto.
Qed.

(** ** Index arrays *)

Lemma take_where_from (p : R -> bool) (pre ws : list R) :
  Np.take (Some (pre ++ ws)) (Np.where_from (List.length pre) (map p ws))
  = Ok (filter p ws).
Proof.
  revert pre. induction ws as [|w ws IH]; intros pre; simpl; [reflexivity|].
  assert (Hshift : pre ++ w :: ws = (pre ++ [w]) ++ ws)
    by (rewrite <- app_assoc; reflexivity).
  assert (Hlen : S (List.length pre) = List.length (pre ++ [w]))
    by (rewrite length_app; simpl; lia).
  specialize (IH (pre ++ [w])). simpl in IH.
  destruct (p w); simpl.
  - rewrite nth_error_app2 by lia. rewrite Nat.sub_diag. simpl.
    rewrite Hshift, Hlen, IH. reflexivity.
  - rewrite Hshift, Hlen, IH. reflexivity.
Qed.

Lemma take_where (p : R -> bool) (ws : list R) :
  Np.take (Some ws) (Np.where_ (map p ws)) = Ok (filter p ws).
Proof. exact (take_where_from p [] ws). Qed.

Lemma take_pairs_from (p : R -> bool) (pre ws fs : list R) :
  List.length fs = List.length ws ->
  Np.take (Some (pre ++ fs)) (Np.where_from (List.length pre) (map p ws))
  = Ok (map snd (filter (fun q => p (fst q)) (combine ws fs))).
Proof.
  revert pre fs. induction ws as [|w ws IH]; intros pre fs Hlen; simpl; [reflexivity|].
  destruct fs as [|f fs]; [discriminate|]. simpl in Hlen.
  assert (Hshift : pre ++ f :: fs = (pre ++ [f]) ++ fs)
    by (rewrite <- app_assoc; reflexivity).
  assert (Hpre : S (List.length pre) = List.length (pre ++ [f]))
    by (rewrite length_app; simpl; lia).
  specialize (IH (pre ++ [f]) fs ltac:(lia)). simpl in IH.
  simpl. destruct (p w); simpl.
  - rewrite nth_error_app2 by lia. rewrite Nat.sub_diag. simpl.
    rewrite Hshift, Hpre, IH. reflexivity.
  - rewrite Hshift, Hpre, IH. reflexivity.
Qed.

Lemma take_pairs (p : R -> bool) (ws fs : list R) :
  List.length fs = List.length ws ->
  Np.take (Some fs) (Np.where_ (map p ws))
  = Ok (map snd (filter (fun q => p (fst q)) (combine ws fs))).
Proof. exact (take_pairs_from p [] ws fs). Qed.

Lemma filter_fst_combine (p : R -> bool) (ws fs : list R) :
  List.length fs = List.length ws ->
  map fst (filter (fun q => p (fst q)) (combine ws fs)) = filter p ws.
Proof.
  revert fs. induction ws as [|w ws IH]; intros fs Hlen; simpl; [reflexivity|].
  destruct fs as [|f fs]; [discriminate|]. simpl in *.
  destruct (p w); simpl; rewrite IH by lia; reflexivity.
Qed.

(** ** The overlap check *)

Lemma band_mask_within (lo hi : R) (l : list R) :
  filter (fun w => (w <=? hi) && (lo <=? w)) l = filter (Spec.within lo hi) l.
Proof. apply filter_ext. intros w. unfold Spec.within. apply andb_comm. Qed.

Lemma waverange_eq (wb ws : list R) (lo hi slo shi : R) :
  Spec.is_min lo wb -> Spec.is_max hi wb ->
  Spec.is_min slo ws -> Spec.is_max shi ws ->
  StarSpectrum._waverange (Some wb) (Some ws)
  = if (lo <? slo) || (shi <? hi) then Raise StarSpectrum.overlap_error
    else Ok (Np.where_ (map (fun w => (w <=? hi) && (lo <=? w)) ws)).
Proof.
  intros Hlo Hhi Hslo Hshi. unfold StarSpectrum._waverange.
  rewrite (np_max_is_max _ _ Hhi), (np_min_is_min _ _ Hlo).
  rewrite (np_max_is_max _ _ Hshi), (np_min_is_min _ _ Hslo).
  simpl. destruct (lo <? slo); simpl; [reflexivity|].
  destruct (shi <? hi); reflexivity.
Qed.

Lemma sticks_out_iff (lo hi slo shi : R) :
  (lo <? slo) || (shi <? hi) = true <-> Spec.sticks_out lo hi slo shi.
Proof.
  unfold Spec.sticks_out. rewrite orb_true_iff, !Rltb_true_iff. unfold Rgt. tauto.
Qed.

(** ** Errors other than the overlap error *)

Lemma foreign_Ok {A : Type} (a : A) : foreign (Ok a).
Proof. discriminate. Qed.

Lemma foreign_bind {A B : Type} (m : result A) (k : A -> result B) :
  foreign m -> (forall a, m = Ok a -> foreign (k a)) -> foreign (rbind m k).
Proof.
  intros Hm Hk. destruct m as [a|e]; simpl; [apply Hk; reflexivity|].
  intros H. apply Hm. injection H as ->. reflexivity.
Qed.

Lemma foreign_take (a : option Np.array) (r : list nat) : foreign (Np.take a r).
Proof.
  destruct a as [l|]; simpl; [|discriminate].
  induction r as [|i r IH]; simpl; [discriminate|].
  destruct (nth_error l i); simpl; [|discriminate].
  apply foreign_bind; [exact IH | discriminate].
Qed.

Lemma foreign_broadcast (f : R -> R -> R) (a b : Np.array) :
  foreign (Np.broadcast f a b).
Proof.
  unfold Np.broadcast.
  destruct (Nat.eqb _ _); [discriminate|].
  destruct a as [|x [|x' a]], b as [|y [|y' b]]; discriminate.
Qed.

Lemma foreign_mul (a b : Np.array) : foreign (Np.mul a b).
Proof. apply foreign_broadcast. Qed.

Lemma foreign_div (a b : Np.array) : foreign (Np.div a b).
Proof. apply foreign_broadcast. Qed.

Lemma foreign_add (a b : Np.array) : foreign (Np.add a b).
Proof. apply foreign_broadcast. Qed.

Lemma foreign_trapz (y x : Np.array) : foreign (Np.trapz y x).
Proof.
  unfold Np.trapz. apply foreign_bind; [apply foreign_add|]. intros s _.
  apply foreign_bind; [apply foreign_mul|]. discriminate.
Qed.

Lemma foreign_call (W : World) (band : BandPass.t) (w : Np.array) :
  foreign (BandPass.__call__ W band w).
Proof.
  unfold BandPass.__call__. destruct (BandPass.interpolated_response band) as [f|];
    [|discriminate].
  unfold Scipy.call. destruct (_ && _); [discriminate|].
  destruct (_ && _); discriminate.
Qed.

Lemma foreign_band_flux (W : World) (band : BandPass.t) (fr wr : Np.array) :
  foreign (StarSpectrum.band_flux W band fr wr).
Proof.
  unfold StarSpectrum.band_flux.
  apply foreign_bind; [apply foreign_call|]. intros bw _.
  apply foreign_bind; [apply foreign_mul|]. intros p _.
  apply foreign_bind; [apply foreign_mul|]. intros q _.
  apply foreign_trapz.
Qed.

(** Walk down a chain of binds none of whose steps raises the overlap
    error. *)
Ltac foreign_chain :=
  repeat (apply foreign_bind; [auto with foreign|]; intros ? _);
  try (cbv zeta; apply foreign_Ok).

Create HintDb foreign.
#[local] Hint Resolve foreign_Ok foreign_take foreign_mul foreign_div foreign_add foreign_trapz
  foreign_call foreign_band_flux : foreign.

Lemma foreign_apmag_tail (W : World) (band : BandPass.t) (mag : string) (mzero : R)
      (s : StarSpectrum.t) (r : list nat) :
  mag <> "Vega" ->
  StarSpectrum._waverange (BandPass.wavelength band) (StarSpectrum.wavelength s) = Ok r ->
  foreign (value (StarSpectrum.apmag W band mag mzero s)).
Proof.
  intros Hmag Hr. unfold StarSpectrum.apmag, reads. simpl. rewrite Hr. simpl.
  apply foreign_bind; [auto with foreign|]. intros wr _.
  apply foreign_bind; [auto with foreign|]. intros fr _.
  destruct (String.eqb mag "AB").
  { foreign_chain. }
  destruct (String.eqb mag "ST").
  { foreign_chain. }
  destruct (String.eqb_spec mag "Vega") as [->|_]; [contradiction|discriminate].
Qed.

Lemma foreign_extinction_tail (W : World) (band : BandPass.t) (law : string)
      (kw : Extinction.kwargs) (s : StarSpectrum.t) (r : list nat) :
  (forall name l w k, lookup name (extlaws W) = Some l -> foreign (l w k)) ->
  StarSpectrum._waverange (BandPass.wavelength band) (StarSpectrum.wavelength s) = Ok r ->
  foreign (value (StarSpectrum.extinction W band law kw s)).
Proof.
  intros Hlaws Hr. unfold StarSpectrum.extinction, reads. simpl. rewrite Hr. simpl.
  apply foreign_bind; [auto with foreign|]. intros wr _.
  apply foreign_bind; [auto with foreign|]. intros fr _.
  apply foreign_bind; [|discriminate].
  destruct (lookup law (extlaws W)) as [l|] eqn:Hl; [|discriminate].
  do 3 (apply foreign_bind; [auto with foreign|]; intros ? _).
  apply foreign_bind; [apply (Hlaws law l); exact Hl|]. intros ext _.
  foreign_chain.
Qed.

(** Under ['Vega'], with the bandpass inside the spectrum's range, the
    overlap error is raised exactly when the bandpass range sticks out of
    the reference spectrum's. *)
Lemma apmag_vega_inside (W : World) (band : BandPass.t) (s : StarSpectrum.t)
      (wb ws fl : list R) (lo hi slo shi vlo vhi mzero : R) :
  BandPass.wavelength band = Some wb ->
  StarSpectrum.wavelength s = Some ws ->
  StarSpectrum.flux s = Some fl -> List.length fl = List.length ws ->
  Spec.is_min lo wb -> Spec.is_max hi wb ->
  Spec.is_min slo ws -> Spec.is_max shi ws ->
  Spec.is_min vlo (vegawavelength W) -> Spec.is_max vhi (vegawavelength W) ->
  ~ Spec.sticks_out lo hi slo shi ->
  (value (StarSpectrum.apmag W band "Vega" mzero s) = Raise StarSpectrum.overlap_error
   <-> Spec.sticks_out lo hi vlo vhi).
Proof.
  intros Hwb Hws Hfl Hlen Hlo Hhi Hslo Hshi Hvlo Hvhi Hs.
  pose proof (waverange_eq wb ws lo hi slo shi Hlo Hhi Hslo Hshi) as Hwr.
  destruct ((lo <? slo) || (shi <? hi)) eqn:Hout;
    [exfalso; apply Hs, sticks_out_iff, Hout|].
  pose proof (waverange_eq wb (vegawavelength W) lo hi vlo vhi Hlo Hhi Hvlo Hvhi) as Hvr.
  pose proof (sticks_out_iff lo hi vlo vhi) as Hviff.
  unfold StarSpectrum.apmag, reads. cbn [value].
  rewrite Hwb, Hws, Hwr, Hfl. cbn [rbind].
  rewrite take_where, (take_pairs _ ws fl Hlen). cbn [rbind].
  simpl (String.eqb "Vega" _). cbv iota. rewrite Hvr.
  destruct ((lo <? vlo) || (vhi <? hi)) eqn:Hvout; cbn [rbind].
  - split; [intros _; apply Hviff; reflexivity | reflexivity].
  - split.
    + intros H. exfalso. revert H. fold (@foreign R). foreign_chain.
    + intros H. apply Hviff in H. discriminate.
Qed.

(** Whatever the reference spectrum, some bandpass lies inside a
    spectrum's range and yet has [apmag] raise the overlap error under
    ['Vega']: one sample just short of the reference table will do. *)
Lemma vega_check_is_a_second_check (W : World) (vlo vhi : R) :
  Spec.is_min vlo (vegawavelength W) -> Spec.is_max vhi (vegawavelength W) ->
  let band := BandPass.mk (Some [vlo - 1]) None None None "slinear" None in
  let star := StarSpectrum.mk (Some [vlo - 1]) (Some [1]) None in
  ~ Spec.sticks_out (vlo - 1) (vlo - 1) (vlo - 1) (vlo - 1)
  /\ value (StarSpectrum.apmag W band "Vega" 0 star) = Raise StarSpectrum.overlap_error.
Proof.
  intros Hvlo Hvhi band star.
  assert (Hone : Spec.is_min (vlo - 1) [vlo - 1] /\ Spec.is_max (vlo - 1) [vlo - 1])
    by (split; extremum).
  destruct Hone as [Hmin Hmax].
  assert (Hin : ~ Spec.sticks_out (vlo - 1) (vlo - 1) (vlo - 1) (vlo - 1))
    by (unfold Spec.sticks_out; lra).
  split; [exact Hin|].
  apply (apmag_vega_inside W band star [vlo - 1] [vlo - 1] [1]
           (vlo - 1) (vlo - 1) (vlo - 1) (vlo - 1) vlo vhi 0);
    try reflexivity; try assumption.
  left. lra.
Qed.

(** C1 (as amended).  For a bandpass and a spectrum with non-empty
    wavelength arrays, [lo], [hi] the least and greatest bandpass wavelength
    and [slo], [shi] those of the spectrum: the overlap check raises the
    overlap error exactly when [lo < slo] or [hi > shi]; when it passes, the
    integration grid is the spectrum's own samples [w] with
    [lo <= w <= hi], in their original order; [extinction] (no registered
    law raising that error itself) and [apmag] under every system other
    than ['Vega'] raise the overlap error exactly under that condition;
    under ['Vega'], [apmag] raises it exactly when the bandpass range
    sticks out of the spectrum's range or out of the reference
    spectrum's. *)
Theorem overlap_check_and_grid (W : World) (band : BandPass.t) (s : StarSpectrum.t)
        (wb ws : list R) (lo hi slo shi : R) :
  BandPass.wavelength band = Some wb ->
  StarSpectrum.wavelength s = Some ws ->
  Spec.is_min lo wb -> Spec.is_max hi wb ->
  Spec.is_min slo ws -> Spec.is_max shi ws ->
  (StarSpectrum._waverange (Some wb) (Some ws) = Raise StarSpectrum.overlap_error
   <-> Spec.sticks_out lo hi slo shi)
  /\ (~ Spec.sticks_out lo hi slo shi ->
      exists r, StarSpectrum._waverange (Some wb) (Some ws) = Ok r
                /\ Np.take (Some ws) r = Ok (filter (Spec.within lo hi) ws))
  /\ ((forall name l w k, lookup name (extlaws W) = Some l ->
                          l w k <> Raise StarSpectrum.overlap_error) ->
      forall law kw,
        value (StarSpectrum.extinction W band law kw s) = Raise StarSpectrum.overlap_error
        <-> Spec.sticks_out lo hi slo shi)
  /\ (forall mag mzero, mag <> "Vega" ->
        (value (StarSpectrum.apmag W band mag mzero s) = Raise StarSpectrum.overlap_error
         <-> Spec.sticks_out lo hi slo shi))
  /\ (forall vlo vhi fl mzero,
        Spec.is_min vlo (vegawavelength W) -> Spec.is_max vhi (vegawavelength W) ->
        StarSpectrum.flux s = Some fl -> List.length fl = List.length ws ->
        (value (StarSpectrum.apmag W band "Vega" mzero s) = Raise StarSpectrum.overlap_error
         <-> Spec.sticks_out lo hi slo shi \/ Spec.sticks_out lo hi vlo vhi)).
Proof.
  intros Hwb Hws Hlo Hhi Hslo Hshi.
  pose proof (waverange_eq wb ws lo hi slo shi Hlo Hhi Hslo Hshi) as Hwr.
  pose proof (sticks_out_iff lo hi slo shi) as Hiff.
  destruct ((lo <? slo) || (shi <? hi)) eqn:Hout.
  - (* the bandpass sticks out *)
    assert (Hs : Spec.sticks_out lo hi slo shi) by (apply Hiff; reflexivity).
    repeat split; try (intros; exact Hs); try (intros; contradiction).
    + intros _. exact Hwr.
    + intros _. unfold StarSpectrum.extinction, reads. simpl.
      rewrite Hwb, Hws, Hwr. reflexivity.
    + intros _. unfold StarSpectrum.apmag, reads. simpl.
      rewrite Hwb, Hws, Hwr. reflexivity.
    + intros _; left; exact Hs.
    + intros _. unfold StarSpectrum.apmag, reads. simpl.
      rewrite Hwb, Hws, Hwr. reflexivity.
  - (* the bandpass lies inside *)
    assert (Hs : ~ Spec.sticks_out lo hi slo shi)
      by (intros H; apply Hiff in H; discriminate).
    split; [rewrite Hwr; split; [discriminate | contradiction]|].
    split; [intros _; eexists; split; [exact Hwr|];
            rewrite take_where; f_equal; apply band_mask_within|].
    split; [|split].
    + intros Hlaws law kw. split; [|contradiction].
      intros H. exfalso. revert H.
      eapply foreign_extinction_tail; [exact Hlaws|].
      rewrite Hwb, Hws. exact Hwr.
    + intros mag mzero Hmag. split; [|contradiction].
      intros H. exfalso. revert H.
      eapply foreign_apmag_tail; [exact Hmag|].
      rewrite Hwb, Hws. exact Hwr.
    + intros vlo vhi fl mzero Hvlo Hvhi Hfl Hlen.
      rewrite (apmag_vega_inside W band s wb ws fl lo hi slo shi vlo vhi mzero
                 Hwb Hws Hfl Hlen Hlo Hhi Hslo Hshi Hvlo Hvhi Hs).
      tauto.
Qed.

Lemma foreign_cardelli_kw (w : list R) (k : Extinction.kwargs) :
  foreign (Extinction.cardelli_kw w k).
Proof.
  unfold Extinction.cardelli_kw.
  destruct (forallb _ k); [|discriminate].
  unfold Extinction.cardelli.
  generalize (Extinction.kwarg "A" 0 k), (Extinction.kwarg "Rv" 3.1 k).
  intros A Rv. induction w as [|x w IH]; cbn [mapM]; [apply foreign_Ok|].
  apply foreign_bind; [|intros; apply foreign_bind; [exact IH | intros; apply foreign_Ok]].
  unfold Extinction.extinction_at. apply foreign_bind.
  - unfold Extinction.coefficients.
    repeat (match goal with |- context [if ?b then _ else _] => destruct b end);
      discriminate.
  - intros [a b] _. apply foreign_Ok.
Qed.

Lemma demo_laws_foreign :
  forall name l w k, lookup name (extlaws Demo.world) = Some l ->
                     l w k <> Raise StarSpectrum.overlap_error.
Proof.
  intros name l w k. cbn [lookup extlaws Demo.world].
  destruct (String.eqb "cardelli" name); [|discriminate].
  intros [= <-]. apply foreign_cardelli_kw.
Qed.

Lemma overlap_check_and_grid_witness :
  (StarSpectrum._waverange (Some [5000; 6000]) (Some [4000; 5000; 5500; 6000; 7000])
   = Raise StarSpectrum.overlap_error
   <-> Spec.sticks_out 5000 6000 4000 7000)
  /\ (~ Spec.sticks_out 5000 6000 4000 7000 ->
      exists r, StarSpectrum._waverange (Some [5000; 6000]) (Some [4000; 5000; 5500; 6000; 7000]) = Ok r
                /\ Np.take (Some [4000; 5000; 5500; 6000; 7000]) r
                   = Ok (filter (Spec.within 5000 6000) [4000; 5000; 5500; 6000; 7000]))
  /\ (forall law kw,
        value (StarSpectrum.extinction Demo.world Demo.flat_band law kw Demo.flat_star)
        = Raise StarSpectrum.overlap_error
        <-> Spec.sticks_out 5000 6000 4000 7000)
  /\ (forall mag mzero, mag <> "Vega" ->
        (value (StarSpectrum.apmag Demo.world Demo.flat_band mag mzero Demo.flat_star)
         = Raise StarSpectrum.overlap_error
         <-> Spec.sticks_out 5000 6000 4000 7000))
  /\ (forall mzero,
        value (StarSpectrum.apmag Demo.world Demo.flat_band "Vega" mzero Demo.flat_star)
        = Raise StarSpectrum.overlap_error
        <-> Spec.sticks_out 5000 6000 4000 7000 \/ Spec.sticks_out 5000 6000 1000 10000).
Proof.
  destruct (overlap_check_and_grid Demo.world Demo.flat_band Demo.flat_star
              [5000; 6000] [4000; 5000; 5500; 6000; 7000] 5000 6000 4000 7000)
    as (H1 & H2 & H3 & H4 & H5);
    [reflexivity | reflexivity | extremum | extremum | extremum | extremum |].
  repeat split; try apply H1; try apply H2; try apply (H3 demo_laws_foreign);
    try (apply H4; assumption).
  - apply (H5 1000 10000 [1; 1; 1; 1; 1] mzero); [extremum | extremum | reflexivity | reflexivity].
  - apply (H5 1000 10000 [1; 1; 1; 1; 1] mzero); [extremum | extremum | reflexivity | reflexivity].
Defined.

(** The claim of C1 as stated fails for [apmag] under its default system:
    a bandpass inside the spectrum's range still raises the overlap error
    when it is not inside the reference spectrum's range. *)
Lemma overlap_vega_counterexample :
  Spec.is_min 200 [200; 400] /\ Spec.is_max 400 [200; 400]
  /\ Spec.is_min 100 [100; 300; 500] /\ Spec.is_max 500 [100; 300; 500]
  /\ ~ (200 < 100 \/ 400 > 500)
  /\ value (StarSpectrum.apmag Demo.world Demo.fuv_band "Vega" 0 Demo.fuv_star)
     = Raise StarSpectrum.overlap_error.
Proof.
  repeat split; try extremum; try (simpl; tauto); try (intros ? [?|?]; simpl in *; lra).
  - lra.
  - unfold StarSpectrum.apmag, reads, Demo.fuv_band, Demo.fuv_star. cbn [value].
    cbn [BandPass.wavelength StarSpectrum.wavelength StarSpectrum.flux].
    rewrite (waverange_eq [200; 400] [100; 300; 500] 200 400 100 500) by extremum.
    Rdecide. cbn [orb rbind]. rewrite take_where, take_pairs by reflexivity.
    cbn [rbind]. simpl (String.eqb "Vega" _). cbv iota.
    cbn [vegawavelength Demo.world].
    rewrite (waverange_eq [200; 400] [1000; 5000; 5500; 6000; 10000] 200 400 1000 10000)
      by extremum.
    Rdecide. reflexivity.
Qed.

(** ** Element-wise arithmetic and the trapezoidal rule *)

Lemma broadcast_same_length (f : R -> R -> R) (a b : list R) :
  List.length a = List.length b ->
  Np.broadcast f a b = Ok (Np.zip_with f a b).
Proof.
  intros H. unfold Np.broadcast. rewrite H, Nat.eqb_refl. reflexivity.
Qed.

Lemma zip_with_map {A : Type} (f : R -> R -> R) (u v : A -> R) (l : list A) :
  Np.zip_with f (map u l) (map v l) = map (fun p => f (u p) (v p)) l.
Proof.
  induction l as [|p l IH]; simpl; [reflexivity|]. rewrite IH. reflexivity.
Qed.

Lemma broadcast_map {A : Type} (f : R -> R -> R) (u v : A -> R) (l : list A) :
  Np.broadcast f (map u l) (map v l) = Ok (map (fun p => f (u p) (v p)) l).
Proof.
  rewrite broadcast_same_length by (rewrite !length_map; reflexivity).
  rewrite zip_with_map. reflexivity.
Qed.

Lemma mul_map {A : Type} (u v : A -> R) (l : list A) :
  Np.mul (map u l) (map v l) = Ok (map (fun p => u p * v p) l).
Proof. apply broadcast_map. Qed.

Lemma div_map {A : Type} (u v : A -> R) (l : list A) :
  Np.div (map u l) (map v l) = Ok (map (fun p => u p / v p) l).
Proof. apply broadcast_map. Qed.

Lemma sum_from (l : list R) (a : R) : fold_left Rplus l a = a + Np.sum l.
Proof.
  unfold Np.sum. revert a. induction l as [|v l IH]; intros a; simpl; [lra|].
  rewrite IH, (IH (0 + v)). lra.
Qed.

Lemma sum_cons (v : R) (l : list R) : Np.sum (v :: l) = v + Np.sum l.
Proof. unfold Np.sum at 1. simpl. rewrite sum_from. lra. Qed.

Lemma slabs_step (x0 x1 y0 y1 : R) (x y : list R) :
  slabs (x0 :: x1 :: x) (y0 :: y1 :: y)
  = (x1 - x0) * (y1 + y0) :: slabs (x1 :: x) (y1 :: y).
Proof. reflexivity. Qed.

Lemma length_diff (x : list R) : List.length (Np.diff x) = pred (List.length x).
Proof.
  induction x as [|x0 [|x1 x] IH]; simpl in *; try reflexivity.
  rewrite IH. reflexivity.
Qed.

Lemma length_init (y : list R) : List.length (Np.init y) = pred (List.length y).
Proof.
  unfold Np.init. induction y as [|y0 [|y1 y] IH]; simpl in *; try reflexivity.
  rewrite IH. reflexivity.
Qed.

Lemma length_tail (y : list R) : List.length (Np.tail y) = pred (List.length y).
Proof. destruct y; reflexivity. Qed.

Lemma length_zip_with (f : R -> R -> R) (a b : list R) :
  List.length a = List.length b -> List.length (Np.zip_with f a b) = List.length a.
Proof.
  revert b. induction a as [|u a IH]; intros [|v b] H; simpl in *; try lia.
  rewrite IH by lia. reflexivity.
Qed.

Lemma sum_slabs (x y : list R) :
  List.length y = List.length x ->
  Np.sum (Np.divs (slabs x y) 2.0) = Spec.trapezoid (combine x y).
Proof.
  revert y. induction x as [|x0 x IH]; intros y Hlen.
  - destruct y; [reflexivity | discriminate].
  - destruct y as [|y0 y]; [discriminate|].
    destruct x as [|x1 x], y as [|y1 y]; try discriminate; [reflexivity|].
    rewrite slabs_step. cbn [Np.divs map]. rewrite sum_cons.
    change (map (fun v => v / 2.0) (slabs (x1 :: x) (y1 :: y)))
      with (Np.divs (slabs (x1 :: x) (y1 :: y)) 2.0).
    rewrite (IH (y1 :: y)) by (simpl in *; lia).
    cbn [combine Spec.trapezoid]. lra.
Qed.

Lemma trapz_combine (y x : list R) :
  List.length y = List.length x ->
  Np.trapz y x = Ok (Spec.trapezoid (combine x y)).
Proof.
  intros Hlen. unfold Np.trapz, Np.add, Np.mul.
  rewrite broadcast_same_length by (rewrite length_tail, length_init; reflexivity).
  cbn [rbind].
  rewrite broadcast_same_length
    by (rewrite length_zip_with, length_diff, length_tail;
        [rewrite Hlen; reflexivity | rewrite length_tail, length_init; reflexivity]).
  cbn [rbind]. f_equal. apply (sum_slabs x y Hlen).
Qed.

Lemma trapz_map {A : Type} (u v : A -> R) (l : list A) :
  Np.trapz (map v l) (map u l) = Ok (Spec.trapezoid (map (fun p => (u p, v p)) l)).
Proof.
  rewrite trapz_combine by (rewrite !length_map; reflexivity).
  f_equal. f_equal. induction l as [|p l IH]; simpl; [reflexivity|].
  rewrite IH. reflexivity.
Qed.

(** ** The integration grid *)

Lemma mask_within (lo hi : R) (ws fl : list R) :
  filter (fun q : R * R => (fst q <=? hi) && (lo <=? fst q)) (combine ws fl)
  = Spec.grid lo hi ws fl.
Proof.
  unfold Spec.grid. apply filter_ext. intros q. unfold Spec.within. apply andb_comm.
Qed.

Lemma take_grid_wavelength (lo hi : R) (ws fl : list R) :
  List.length fl = List.length ws ->
  Np.take (Some ws) (Np.where_ (map (fun w => (w <=? hi) && (lo <=? w)) ws))
  = Ok (map fst (Spec.grid lo hi ws fl)).
Proof.
  intros Hlen. rewrite take_where, <- mask_within.
  rewrite (filter_fst_combine (fun w => (w <=? hi) && (lo <=? w)) ws fl Hlen).
  reflexivity.
Qed.

Lemma take_grid_flux (lo hi : R) (ws fl : list R) :
  List.length fl = List.length ws ->
  Np.take (Some fl) (Np.where_ (map (fun w => (w <=? hi) && (lo <=? w)) ws))
  = Ok (map snd (Spec.grid lo hi ws fl)).
Proof.
  intros Hlen. rewrite (take_pairs _ ws fl Hlen), mask_within. reflexivity.
Qed.

(** ** The bandpass as a function *)

Lemma call_map {A : Type} (W : World) (band : BandPass.t) (f : Scipy.interp1d_t)
      (u : A -> R) (l : list A) :
  BandPass.interpolated_response band = Some f ->
  Scipy.bounds_error f = false ->
  BandPass.__call__ W band (map u l)
  = Ok (map (fun p => Scipy.value_at (kernel W) f (u p)) l).
Proof.
  intros Hf Hbe. unfold BandPass.__call__, Scipy.call. rewrite Hf, Hbe.
  cbn [andb]. rewrite map_map. reflexivity.
Qed.

Lemma band_flux_map {A : Type} (W : World) (band : BandPass.t) (f : Scipy.interp1d_t)
      (u v : A -> R) (l : list A) :
  BandPass.interpolated_response band = Some f ->
  Scipy.bounds_error f = false ->
  StarSpectrum.band_flux W band (map v l) (map u l)
  = Ok (Spec.trapezoid
          (map (fun p => (u p, v p * Scipy.value_at (kernel W) f (u p) * u p)) l)).
Proof.
  intros Hf Hbe. unfold StarSpectrum.band_flux.
  rewrite (call_map W band f u l Hf Hbe). cbn [rbind].
  rewrite (mul_map v (fun p => Scipy.value_at (kernel W) f (u p)) l). cbn [rbind].
  rewrite (mul_map (fun p => v p * Scipy.value_at (kernel W) f (u p)) u l). cbn [rbind].
  apply (trapz_map u (fun p => v p * Scipy.value_at (kernel W) f (u p) * u p) l).
Qed.

(** What the three prologue lines of [apmag] and [extinction] leave in
    [wr] and [fr] when the check passes. *)
Lemma prologue (band : BandPass.t) (s : StarSpectrum.t) (wb ws fl : list R)
      (lo hi slo shi : R) {A : Type} (k : list R -> list R -> result A) :
  BandPass.wavelength band = Some wb ->
  StarSpectrum.wavelength s = Some ws ->
  StarSpectrum.flux s = Some fl ->
  List.length fl = List.length ws ->
  Spec.is_min lo wb -> Spec.is_max hi wb ->
  Spec.is_min slo ws -> Spec.is_max shi ws ->
  ~ Spec.sticks_out lo hi slo shi ->
  (r <- StarSpectrum._waverange (BandPass.wavelength band) (StarSpectrum.wavelength s) ;;
   wr <- Np.take (StarSpectrum.wavelength s) r ;;
   fr <- Np.take (StarSpectrum.flux s) r ;;
   k wr fr)
  = k (map fst (Spec.grid lo hi ws fl)) (map snd (Spec.grid lo hi ws fl)).
Proof.
  intros Hwb Hws Hfl Hlen Hlo Hhi Hslo Hshi Hin.
  rewrite Hwb, Hws, Hfl, (waverange_eq wb ws lo hi slo shi Hlo Hhi Hslo Hshi).
  destruct ((lo <? slo) || (shi <? hi)) eqn:Hout;
    [exfalso; apply Hin, sticks_out_iff, Hout|].
  cbn [rbind].
  rewrite (take_grid_wavelength lo hi ws fl Hlen). cbn [rbind].
  rewrite (take_grid_flux lo hi ws fl Hlen). reflexivity.
Qed.

(** C2.  When the overlap check passes, [apmag] with system ['AB'] returns
    [-2.5*log10(T(f*R(w)*w) / T(R(w)*c/w)) + (-48.60)]: [w], [f] run over
    the spectrum's samples on the overlap grid, [R] is the bandpass
    interpolant, [T] the trapezoidal rule over the grid's own wavelengths,
    the two integrals are taken separately and then divided, and the
    spectrum is as it was. *)
Theorem apmag_AB_formula (W : World) (band : BandPass.t) (s : StarSpectrum.t)
        (f : Scipy.interp1d_t) (wb ws fl : list R) (lo hi slo shi mzero : R) :
  BandPass.wavelength band = Some wb ->
  BandPass.interpolated_response band = Some f ->
  Scipy.bounds_error f = false ->
  StarSpectrum.wavelength s = Some ws ->
  StarSpectrum.flux s = Some fl ->
  List.length fl = List.length ws ->
  Spec.is_min lo wb -> Spec.is_max hi wb ->
  Spec.is_min slo ws -> Spec.is_max shi ws ->
  ~ Spec.sticks_out lo hi slo shi ->
  let g := Spec.grid lo hi ws fl in
  let Rb := Scipy.value_at (kernel W) f in
  StarSpectrum.apmag W band "AB" mzero s
  = mk_outcome
      (Ok (-2.5 * Np.log10 (Spec.T (fun w fx => fx * Rb w * w) g
                            / Spec.T (fun w _ => Rb w * 2.99792458e18 / w) g)
           + -48.60))
      s [].
Proof.
  intros Hwb Hf Hbe Hws Hfl Hlen Hlo Hhi Hslo Hshi Hin g Rb.
  unfold StarSpectrum.apmag, reads. f_equal.
  rewrite (prologue band s wb ws fl lo hi slo shi _ Hwb Hws Hfl Hlen Hlo Hhi Hslo Hshi Hin).
  fold g. simpl (String.eqb "AB" _). cbv iota.
  rewrite (band_flux_map W band f fst snd g Hf Hbe). cbn [rbind].
  rewrite (call_map W band f fst g Hf Hbe). cbn [rbind].
  unfold Np.muls. rewrite map_map.
  rewrite (div_map (fun p => Scipy.value_at (kernel W) f (fst p) * c) fst g). cbn [rbind].
  rewrite (trapz_map fst (fun p => Scipy.value_at (kernel W) f (fst p) * c / fst p) g).
  cbn [rbind]. reflexivity.
Qed.

Lemma apmag_AB_formula_witness :
  let g := Spec.grid 5000 6000 [4000; 5000; 5500; 6000; 7000] [1; 1; 1; 1; 1] in
  let Rb := Scipy.value_at (kernel Demo.world)
              (Scipy.mk_interp1d [5000; 6000] [1; 1] "slinear" false 0) in
  StarSpectrum.apmag Demo.world Demo.flat_band "AB" 0 Demo.flat_star
  = mk_outcome
      (Ok (-2.5 * Np.log10 (Spec.T (fun w fx => fx * Rb w * w) g
                            / Spec.T (fun w _ => Rb w * 2.99792458e18 / w) g)
           + -48.60))
      Demo.flat_star [].
Proof.
  apply (apmag_AB_formula Demo.world Demo.flat_band Demo.flat_star
           (Scipy.mk_interp1d [5000; 6000] [1; 1] "slinear" false 0)
           [5000; 6000] [4000; 5000; 5500; 6000; 7000] [1; 1; 1; 1; 1]
           5000 6000 4000 7000 0);
    try reflexivity; try extremum.
  unfold Spec.sticks_out. lra.
Defined.

(** C3.  [apmag] with system ['Vega'] resolves the overlap twice with the
    same rule, against the target spectrum and against the reference
    spectrum: if the bandpass range sticks out of either, the overlap error
    is raised; otherwise the result is
    [-2.5*log10(T(f*R(w)*w)) + 2.5*log10(T(f_vega*R(w_vega)*w_vega)) + mzero],
    each integral over its own grid, and [mzero] defaults to 0. *)
Theorem apmag_Vega_formula (W : World) (band : BandPass.t) (s : StarSpectrum.t)
        (f : Scipy.interp1d_t) (wb ws fl : list R)
        (lo hi slo shi vlo vhi mzero : R) :
  BandPass.wavelength band = Some wb ->
  BandPass.interpolated_response band = Some f ->
  Scipy.bounds_error f = false ->
  StarSpectrum.wavelength s = Some ws ->
  StarSpectrum.flux s = Some fl ->
  List.length fl = List.length ws ->
  List.length (vegaflux W) = List.length (vegawavelength W) ->
  Spec.is_min lo wb -> Spec.is_max hi wb ->
  Spec.is_min slo ws -> Spec.is_max shi ws ->
  Spec.is_min vlo (vegawavelength W) -> Spec.is_max vhi (vegawavelength W) ->
  let g := Spec.grid lo hi ws fl in
  let g_vega := Spec.grid lo hi (vegawavelength W) (vegaflux W) in
  let Rb := Scipy.value_at (kernel W) f in
  (Spec.sticks_out lo hi slo shi \/ Spec.sticks_out lo hi vlo vhi ->
   StarSpectrum.apmag W band "Vega" mzero s
   = mk_outcome (Raise StarSpectrum.overlap_error) s [])
  /\ (~ Spec.sticks_out lo hi slo shi -> ~ Spec.sticks_out lo hi vlo vhi ->
      StarSpectrum.apmag W band "Vega" mzero s
      = mk_outcome
          (Ok (-2.5 * Np.log10 (Spec.T (fun w fx => fx * Rb w * w) g)
               + 2.5 * Np.log10 (Spec.T (fun w fx => fx * Rb w * w) g_vega)
               + mzero))
          s [])
  /\ StarSpectrum.default_mag = "Vega" /\ StarSpectrum.default_mzero = 0.
Proof.
  intros Hwb Hf Hbe Hws Hfl Hlen Hvlen Hlo Hhi Hslo Hshi Hvlo Hvhi g g_vega Rb.
  pose proof (waverange_eq wb (vegawavelength W) lo hi vlo vhi Hlo Hhi Hvlo Hvhi) as Hvr.
  assert (Hinside : ~ Spec.sticks_out lo hi slo shi ->
            value (StarSpectrum.apmag W band "Vega" mzero s)
            = (vegar <- StarSpectrum._waverange (Some wb) (Some (vegawavelength W)) ;;
               vegawr <- Np.take (Some (vegawavelength W)) vegar ;;
               vegafr <- Np.take (Some (vegaflux W)) vegar ;;
               n <- StarSpectrum.band_flux W band (map snd g) (map fst g) ;;
               vega_f <- StarSpectrum.band_flux W band vegafr vegawr ;;
               Ok (-2.5 * Np.log10 n + 2.5 * Np.log10 vega_f + mzero))).
  { intros Hin. unfold StarSpectrum.apmag, reads. cbn [value].
    rewrite (prologue band s wb ws fl lo hi slo shi _ Hwb Hws Hfl Hlen Hlo Hhi Hslo Hshi Hin).
    fold g. simpl (String.eqb "Vega" _). cbv iota. rewrite Hwb. reflexivity. }
  assert (Hshape : forall m, StarSpectrum.apmag W band "Vega" mzero s
                             = mk_outcome m s []
                             <-> value (StarSpectrum.apmag W band "Vega" mzero s) = m).
  { intros m. unfold StarSpectrum.apmag, reads. cbn [value]. split.
    - intros [= H]. exact H.
    - intros ->. reflexivity. }
  split; [|split; [|split; reflexivity]].
  - intros Hout. apply Hshape.
    destruct ((lo <? slo) || (shi <? hi)) eqn:Hspec.
    + unfold StarSpectrum.apmag, reads. cbn [value].
      rewrite Hwb, Hws, (waverange_eq wb ws lo hi slo shi Hlo Hhi Hslo Hshi), Hspec.
      reflexivity.
    + assert (Hin : ~ Spec.sticks_out lo hi slo shi)
        by (intros H; apply sticks_out_iff in H; congruence).
      rewrite (Hinside Hin), Hvr.
      destruct Hout as [Hout | Hout]; [contradiction|].
      apply sticks_out_iff in Hout. rewrite Hout. reflexivity.
  - intros Hin Hvin. apply Hshape. rewrite (Hinside Hin), Hvr.
    destruct ((lo <? vlo) || (vhi <? hi)) eqn:Hvout;
      [exfalso; apply Hvin, sticks_out_iff, Hvout|].
    cbn [rbind].
    rewrite (take_grid_wavelength lo hi (vegawavelength W) (vegaflux W) Hvlen). cbn [rbind].
    rewrite (take_grid_flux lo hi (vegawavelength W) (vegaflux W) Hvlen). cbn [rbind].
    fold g_vega.
    rewrite (band_flux_map W band f fst snd g Hf Hbe). cbn [rbind].
    rewrite (band_flux_map W band f fst snd g_vega Hf Hbe). cbn [rbind].
    reflexivity.
Qed.

Lemma apmag_Vega_formula_witness :
  let g := Spec.grid 5000 6000 [4000; 5000; 5500; 6000; 7000] [1; 1; 1; 1; 1] in
  let g_vega := Spec.grid 5000 6000 [1000; 5000; 5500; 6000; 10000] [3; 2; 2; 2; 1] in
  let Rb := Scipy.value_at (kernel Demo.world)
              (Scipy.mk_interp1d [5000; 6000] [1; 1] "slinear" false 0) in
  StarSpectrum.apmag Demo.world Demo.flat_band "Vega" 0.03 Demo.flat_star
  = mk_outcome
      (Ok (-2.5 * Np.log10 (Spec.T (fun w fx => fx * Rb w * w) g)
           + 2.5 * Np.log10 (Spec.T (fun w fx => fx * Rb w * w) g_vega)
           + 0.03))
      Demo.flat_star [].
Proof.
  apply (apmag_Vega_formula Demo.world Demo.flat_band Demo.flat_star
           (Scipy.mk_interp1d [5000; 6000] [1; 1] "slinear" false 0)
           [5000; 6000] [4000; 5000; 5500; 6000; 7000] [1; 1; 1; 1; 1]
           5000 6000 4000 7000 1000 10000 0.03);
    try reflexivity; try extremum; unfold Spec.sticks_out; lra.
Defined.

Lemma map_fst_combine {A B C : Type} (u : A -> C) (l : list A) (l' : list B) :
  List.length l' = List.length l ->
  map (fun q => u (fst q)) (combine l l') = map u l.
Proof.
  revert l'. induction l as [|a l IH]; intros [|b l'] H; simpl in *; try lia;
    [reflexivity|]. rewrite IH by lia. reflexivity.
Qed.

Lemma map_snd_combine {A B C : Type} (v : B -> C) (l : list A) (l' : list B) :
  List.length l' = List.length l ->
  map (fun q => v (snd q)) (combine l l') = map v l'.
Proof.
  revert l'. induction l as [|a l IH]; intros [|b l'] H; simpl in *; try lia;
    [reflexivity|]. rewrite IH by lia. reflexivity.
Qed.

(** C4.  When the overlap check passes and the law is registered (and
    yields its one value per grid wavelength), [extinction] returns
    [-2.5*log10(ratio)] with
    [ratio = T(f*R(w)*w*10^(-0.4*law(w))) / T(f*R(w)*w)], both integrals by
    the trapezoidal rule over the overlap grid, the spectrum flux in
    numerator and denominator alike; the spectrum is as it was. *)
Theorem extinction_formula (W : World) (band : BandPass.t) (s : StarSpectrum.t)
        (f : Scipy.interp1d_t) (wb ws fl : list R) (lo hi slo shi : R)
        (law : string) (the_law : Extinction.law) (kw : Extinction.kwargs)
        (ext : list R) :
  BandPass.wavelength band = Some wb ->
  BandPass.interpolated_response band = Some f ->
  Scipy.bounds_error f = false ->
  StarSpectrum.wavelength s = Some ws ->
  StarSpectrum.flux s = Some fl ->
  List.length fl = List.length ws ->
  Spec.is_min lo wb -> Spec.is_max hi wb ->
  Spec.is_min slo ws -> Spec.is_max shi ws ->
  ~ Spec.sticks_out lo hi slo shi ->
  let g := Spec.grid lo hi ws fl in
  let Rb := Scipy.value_at (kernel W) f in
  lookup law (extlaws W) = Some the_law ->
  the_law (map fst g) kw = Ok ext ->
  List.length ext = List.length g ->
  StarSpectrum.extinction W band law kw s
  = mk_outcome
      (Ok (-2.5 * Np.log10
                    (Spec.T3 (fun w fx a => fx * Rb w * w * Rpower 10 (-0.4 * a))
                             (combine g ext)
                     / Spec.T (fun w fx => fx * Rb w * w) g)))
      s [].
Proof.
  intros Hwb Hf Hbe Hws Hfl Hlen Hlo Hhi Hslo Hshi Hin g Rb Hlaw Hext Hextlen.
  unfold StarSpectrum.extinction, reads. f_equal.
  rewrite (prologue band s wb ws fl lo hi slo shi _ Hwb Hws Hfl Hlen Hlo Hhi Hslo Hshi Hin).
  fold g. rewrite Hlaw.
  rewrite (call_map W band f fst g Hf Hbe). cbn [rbind].
  rewrite (mul_map snd (fun p => Scipy.value_at (kernel W) f (fst p)) g). cbn [rbind].
  rewrite (mul_map (fun p => snd p * Scipy.value_at (kernel W) f (fst p)) fst g).
  cbn [rbind]. rewrite Hext. cbn [rbind].
  unfold Np.spow, Np.smul. rewrite map_map.
  rewrite <- (map_fst_combine
                (fun p => snd p * Scipy.value_at (kernel W) f (fst p) * fst p) g ext Hextlen).
  rewrite <- (map_snd_combine (fun a => Rpower 10 (-0.4 * a)) g ext Hextlen).
  rewrite (mul_map (fun q : R * R * R =>
                      snd (fst q) * Scipy.value_at (kernel W) f (fst (fst q)) * fst (fst q))
                   (fun q => Rpower 10 (-0.4 * snd q)) (combine g ext)).
  cbn [rbind].
  rewrite <- (map_fst_combine fst g ext Hextlen) at 1.
  rewrite (trapz_map (fun q : R * R * R => fst (fst q))
                     (fun q => snd (fst q) * Scipy.value_at (kernel W) f (fst (fst q))
                               * fst (fst q) * Rpower 10 (-0.4 * snd q))
                     (combine g ext)).
  cbn [rbind].
  rewrite (band_flux_map W band f fst snd g Hf Hbe). cbn [rbind].
  reflexivity.
Qed.

(** ** The Cardelli law *)

(** Turn every comparison of the goal into a case split on the order. *)
Ltac Rcases :=
  repeat match goal with
    | |- context [?a <? ?b] =>
        let H := fresh "H" in
        destruct (a <? b) eqn:H;
        [apply Rltb_true_iff in H | apply Rltb_false_iff in H]
    | |- context [?a <=? ?b] =>
        let H := fresh "H" in
        destruct (a <=? b) eqn:H;
        [apply Rleb_true_iff in H | apply Rleb_false_iff in H]
    end.

Lemma inverse_micron_eq (w : R) : Extinction.inverse_micron w = 1e4 / w.
Proof.
  unfold Extinction.inverse_micron. cbv zeta. unfold Rdiv. rewrite Rinv_mult. lra.
Qed.

Lemma coefficients_outside (X : R) :
  X < 0.3 \/ X >= 10 -> raises (Extinction.coefficients X).
Proof.
  intros HX. unfold Extinction.coefficients, raises.
  Rcases; cbn [andb]; try (eexists; reflexivity); exfalso; lra.
Qed.

Lemma coefficients_inside (X : R) :
  0.3 <= X < 10 -> Extinction.coefficients X = Ok (region_coefficients X).
Proof.
  intros HX. unfold Extinction.coefficients, region_coefficients.
  Rcases; cbn [andb]; try reflexivity; exfalso; lra.
Qed.

Lemma extinction_at_outside (A Rv w : R) :
  1e4 / w < 0.3 \/ 1e4 / w >= 10 -> raises (Extinction.extinction_at A Rv w).
Proof.
  intros HX. unfold Extinction.extinction_at. cbv zeta. rewrite inverse_micron_eq.
  destruct (coefficients_outside _ HX) as [e ->]. exists e. reflexivity.
Qed.

Lemma extinction_at_inside (A Rv w : R) :
  0.3 <= 1e4 / w < 10 -> Extinction.extinction_at A Rv w = Ok (law_value A Rv w).
Proof.
  intros HX. unfold Extinction.extinction_at. cbv zeta. rewrite inverse_micron_eq.
  rewrite (coefficients_inside _ HX). cbn [rbind]. unfold law_value, scaled.
  destruct (region_coefficients (1e4 / w)) as [a b]. reflexivity.
Qed.

Lemma cardelli_inside (ws : list R) (A Rv : R) :
  Forall (fun w => 0.3 <= 1e4 / w < 10) ws ->
  Extinction.cardelli ws A Rv = Ok (map (law_value A Rv) ws).
Proof.
  unfold Extinction.cardelli. induction 1 as [|w ws Hw _ IH]; [reflexivity|].
  cbn [mapM map]. rewrite (extinction_at_inside A Rv w Hw). cbn [rbind].
  rewrite IH. reflexivity.
Qed.

(** C5.  The law raises as soon as some wavelength [w] has [X = 1e4/w]
    below 0.3 or at least 10; when every wavelength has [0.3 <= X < 10] it
    raises nothing and returns, in the order of the input, the one value
    [A*(a + b/Rv)] of each wavelength, computed from that wavelength
    alone. *)
Theorem cardelli_domain (ws : list R) (A Rv : R) :
  (Exists (fun w => 1e4 / w < 0.3 \/ 1e4 / w >= 10) ws ->
   raises (Extinction.cardelli ws A Rv))
  /\ (Forall (fun w => 0.3 <= 1e4 / w < 10) ws ->
      Extinction.cardelli ws A Rv = Ok (map (law_value A Rv) ws)
      /\ List.length (map (law_value A Rv) ws) = List.length ws
      /\ forall i w, nth_error ws i = Some w ->
                     nth_error (map (law_value A Rv) ws) i
                     = Some (A * (fst (region_coefficients (1e4 / w))
                                  + snd (region_coefficients (1e4 / w)) / Rv))).
Proof.
  split.
  - unfold Extinction.cardelli. induction 1 as [w ws Hw | w ws _ IH]; cbn [mapM].
    + destruct (extinction_at_outside A Rv w Hw) as [e ->]. exists e. reflexivity.
    + destruct (Extinction.extinction_at A Rv w) as [v|e]; cbn [rbind].
      * destruct IH as [e ->]. exists e. reflexivity.
      * exists e. reflexivity.
  - intros Hall. split; [apply cardelli_inside; exact Hall|].
    split; [apply length_map|].
    intros i w Hi. rewrite nth_error_map, Hi. reflexivity.
Qed.

Lemma cardelli_domain_witness :
  raises (Extinction.cardelli [5000; 40000] 0.5 3.1)
  /\ Extinction.cardelli [5000; 5500; 6000] 0.5 3.1
     = Ok (map (law_value 0.5 3.1) [5000; 5500; 6000]).
Proof.
  split.
  - apply (cardelli_domain [5000; 40000] 0.5 3.1).
    right. left. left. lra.
  - apply (cardelli_domain [5000; 5500; 6000] 0.5 3.1).
    repeat constructor; lra.
Defined.

(** ** Continuity of the law across its regions *)

Lemma Rabs_bounds (v lo hi tol : R) :
  lo <= v <= hi -> - tol <= lo -> hi <= tol -> Rabs v <= tol.
Proof. intros [H1 H2] H3 H4. apply Rabs_le. lra. Qed.

Lemma Rabs_exceeds (v hi tol : R) :
  v <= hi -> hi < - tol -> ~ Rabs v <= tol.
Proof.
  intros H1 H2 H. pose proof (Rle_abs (- v)). rewrite Rabs_Ropp in *. lra.
Qed.

Lemma optical_at_3_3 :
  -0.000181 <= scaled 1 3.1 (Extinction.optical 3.3) - scaled 1 3.1 (ultraviolet_plain 3.3)
  <= -0.000180.
Proof.
  unfold scaled, Extinction.optical, ultraviolet_plain, Extinction.ultraviolet.
  cbn [fst snd]. split; lra.
Qed.

(** *** The fractional power at the first boundary

    [1.1 ** 1.61] is bracketed through integer powers: its hundredth power
    is [1.1 ^ 161]. *)

Lemma pow_ratio_lt (a b c d : Z) (m n : nat) :
  (0 < b)%Z -> (0 < d)%Z ->
  (a ^ Z.of_nat m * d ^ Z.of_nat n < c ^ Z.of_nat n * b ^ Z.of_nat m)%Z ->
  (IZR a / IZR b) ^ m < (IZR c / IZR d) ^ n.
Proof.
  intros Hb Hd Hlt. unfold Rdiv. rewrite !Rpow_mult_distr, !pow_inv, !pow_IZR.
  assert (Hbm : 0 < IZR (b ^ Z.of_nat m))
    by (apply IZR_lt, Z.pow_pos_nonneg; lia).
  assert (Hdn : 0 < IZR (d ^ Z.of_nat n))
    by (apply IZR_lt, Z.pow_pos_nonneg; lia).
  apply IZR_lt in Hlt. rewrite !mult_IZR in Hlt.
  apply (Rmult_lt_reg_r (IZR (b ^ Z.of_nat m) * IZR (d ^ Z.of_nat n)));
    [apply Rmult_lt_0_compat; assumption|].
  replace (IZR (a ^ Z.of_nat m) * / IZR (b ^ Z.of_nat m)
           * (IZR (b ^ Z.of_nat m) * IZR (d ^ Z.of_nat n)))
    with (IZR (a ^ Z.of_nat m) * IZR (d ^ Z.of_nat n)) by (field; lra).
  replace (IZR (c ^ Z.of_nat n) * / IZR (d ^ Z.of_nat n)
           * (IZR (b ^ Z.of_nat m) * IZR (d ^ Z.of_nat n)))
    with (IZR (c ^ Z.of_nat n) * IZR (b ^ Z.of_nat m)) by (field; lra).
  exact Hlt.
Qed.

Lemma rpower_hundredth : Rpower 1.1 1.61 ^ 100 = 1.1 ^ 161.
Proof.
  assert (Hp : 0 < Rpower 1.1 1.61) by (unfold Rpower; apply exp_pos).
  rewrite <- (Rpower_pow 100 _ Hp), Rpower_mult.
  replace (1.61 * INR 100) with (INR 161)
    by (rewrite !INR_IZR_INZ; simpl Z.of_nat; lra).
  apply Rpower_pow. lra.
Qed.

Lemma rpower_bracket : 1.1655 < Rpower 1.1 1.61 < 1.1660.
Proof.
  assert (Hp : 0 < Rpower 1.1 1.61) by (unfold Rpower; apply exp_pos).
  pose proof rpower_hundredth as Hpow.
  assert (Hlow : (IZR 11655 / IZR 10000) ^ 100 < (IZR 11 / IZR 10) ^ 161)
    by (apply pow_ratio_lt; [lia | lia | vm_compute; reflexivity]).
  assert (Hhigh : (IZR 11 / IZR 10) ^ 161 < (IZR 11660 / IZR 10000) ^ 100)
    by (apply pow_ratio_lt; [lia | lia | vm_compute; reflexivity]).
  replace (IZR 11655 / IZR 10000) with 1.1655 in Hlow by lra.
  replace (IZR 11660 / IZR 10000) with 1.1660 in Hhigh by lra.
  replace (IZR 11 / IZR 10) with 1.1 in Hlow, Hhigh by lra.
  split; apply Rnot_le_lt; intros Hle.
  - assert (H : Rpower 1.1 1.61 ^ 100 <= 1.1655 ^ 100) by (apply pow_incr; lra).
    rewrite Hpow in H. lra.
  - assert (H : 1.1660 ^ 100 <= Rpower 1.1 1.61 ^ 100) by (apply pow_incr; lra).
    rewrite Hpow in H. lra.
Qed.

Lemma infrared_at_1_1 :
  -0.00045 <= scaled 1 3.1 (Extinction.infrared 1.1) - scaled 1 3.1 (Extinction.optical 1.1)
  <= -0.00024.
Proof.
  pose proof rpower_bracket as [Hlow Hhigh].
  unfold scaled, Extinction.infrared, Extinction.optical. cbn [fst snd].
  set (p := Rpower 1.1 1.61) in *. split; lra.
Qed.

Lemma far_correction_at_5_9 : Extinction.far_correction 5.9 = (0, 0).
Proof. unfold Extinction.far_correction. cbv zeta. f_equal; lra. Qed.

Lemma ultraviolet_at_8 :
  scaled 1 3.1 (ultraviolet_far 8.0) - scaled 1 3.1 (Extinction.far_ultraviolet 8.0)
  <= -0.72.
Proof.
  unfold scaled, ultraviolet_far, Extinction.ultraviolet, Extinction.far_correction,
    Extinction.far_ultraviolet. cbn [fst snd]. lra.
Qed.

(** Which formula the law itself applies at each boundary, and just
    below it. *)
Lemma coefficients_by_region (X : R) :
  (0.3 <= X < 1.1 -> Extinction.coefficients X = Ok (Extinction.infrared X))
  /\ (1.1 <= X < 3.3 -> Extinction.coefficients X = Ok (Extinction.optical X))
  /\ (3.3 <= X < 5.9 -> Extinction.coefficients X = Ok (ultraviolet_plain X))
  /\ (5.9 <= X < 8 -> Extinction.coefficients X = Ok (ultraviolet_far X))
  /\ (8 <= X < 10 -> Extinction.coefficients X = Ok (Extinction.far_ultraviolet X)).
Proof.
  repeat split; intros HX; rewrite coefficients_inside by lra;
    unfold region_coefficients; Rcases; try reflexivity; exfalso; lra.
Qed.

(** The claim of C6 as stated fails: with [A = 1], [Rv = 3.1] the optical
    and the ultraviolet formula differ at [X = 3.3] by more than [1e-6]. *)
Lemma continuity_counterexample : ~ continuous_within 1e-6 1 3.1.
Proof.
  intros (_ & H33 & _). revert H33. unfold gap.
  apply (Rabs_exceeds _ (-0.000180)); [apply optical_at_3_3 | lra].
Qed.

(** C6 (as amended).  At [X = 5.9] the two ultraviolet formulas agree
    exactly, whatever [A] and [Rv]; at [X = 1.1] and [X = 3.3], for [A = 1]
    and [Rv = 3.1], the formulas of the adjoining regions differ by more
    than [1e-6] and by no more than [1e-3].  The law applies the upper
    formula at each boundary itself. *)
Theorem cardelli_boundaries :
  (forall A Rv, gap ultraviolet_plain ultraviolet_far 5.9 A Rv = 0)
  /\ 1e-6 < gap Extinction.infrared Extinction.optical 1.1 1 3.1 <= 1e-3
  /\ 1e-6 < gap Extinction.optical ultraviolet_plain 3.3 1 3.1 <= 1e-3
  /\ Extinction.coefficients 1.1 = Ok (Extinction.optical 1.1)
  /\ Extinction.coefficients 3.3 = Ok (ultraviolet_plain 3.3)
  /\ Extinction.coefficients 5.9 = Ok (ultraviolet_far 5.9).
Proof.
  split; [|split; [|split; [|split; [|split]]]].
  - intros A Rv. unfold gap, ultraviolet_far. rewrite far_correction_at_5_9.
    fold (ultraviolet_plain 5.9). rewrite Rminus_diag. apply Rabs_R0.
  - unfold gap. pose proof infrared_at_1_1 as [H1 H2]. split.
    + apply Rnot_le_lt. apply (Rabs_exceeds _ (-0.00024)); [exact H2 | lra].
    + apply (Rabs_bounds _ (-0.00045) (-0.00024)); [split; assumption | lra | lra].
  - unfold gap. pose proof optical_at_3_3 as [H1 H2]. split.
    + apply Rnot_le_lt. apply (Rabs_exceeds _ (-0.000180)); [exact H2 | lra].
    + apply (Rabs_bounds _ (-0.000181) (-0.000180)); [split; assumption | lra | lra].
  - apply coefficients_by_region. lra.
  - apply coefficients_by_region. lra.
  - apply coefficients_by_region. lra.
Qed.

(** At [X = 8] the ultraviolet and the far-ultraviolet formula are 0.72
    apart: the cubic term of [Fb] enters [far_correction] with a minus
    sign. *)
Lemma jump_at_8 : 0.72 <= gap ultraviolet_far Extinction.far_ultraviolet 8.0 1 3.1.
Proof.
  unfold gap. pose proof ultraviolet_at_8 as H.
  rewrite <- Rabs_Ropp. pose proof (Rle_abs (- (scaled 1 3.1 (ultraviolet_far 8.0)
    - scaled 1 3.1 (Extinction.far_ultraviolet 8.0)))). lra.
Qed.

(** ** Magnitude systems, law names and the zero point *)

(** C8.  For a spectrum and a bandpass passing the overlap check: [apmag]
    with a system other than ['Vega'], ['AB'] and ['ST'] raises
    [ValueError], and so does [extinction] with a law name absent from the
    registry; nothing is returned and the spectrum is as it was. *)
Theorem unknown_names_raise (W : World) (band : BandPass.t) (s : StarSpectrum.t)
        (wb ws fl : list R) (lo hi slo shi : R) :
  BandPass.wavelength band = Some wb ->
  StarSpectrum.wavelength s = Some ws ->
  StarSpectrum.flux s = Some fl ->
  List.length fl = List.length ws ->
  Spec.is_min lo wb -> Spec.is_max hi wb ->
  Spec.is_min slo ws -> Spec.is_max shi ws ->
  ~ Spec.sticks_out lo hi slo shi ->
  (forall mag mzero,
      mag <> "Vega" -> mag <> "AB" -> mag <> "ST" ->
      StarSpectrum.apmag W band mag mzero s = mk_outcome (Raise invalid_system) s [])
  /\ (forall law kw,
         lookup law (extlaws W) = None ->
         StarSpectrum.extinction W band law kw s = mk_outcome (Raise invalid_law) s []).
Proof.
  intros Hwb Hws Hfl Hlen Hlo Hhi Hslo Hshi Hin. split.
  - intros mag mzero HV HAB HST. unfold StarSpectrum.apmag, reads. f_equal.
    rewrite (prologue band s wb ws fl lo hi slo shi _ Hwb Hws Hfl Hlen Hlo Hhi Hslo Hshi Hin).
    destruct (String.eqb_spec mag "AB") as [->|_]; [contradiction|].
    destruct (String.eqb_spec mag "ST") as [->|_]; [contradiction|].
    destruct (String.eqb_spec mag "Vega") as [->|_]; [contradiction|].
    reflexivity.
  - intros law kw Hlaw. unfold StarSpectrum.extinction, reads. f_equal.
    rewrite (prologue band s wb ws fl lo hi slo shi _ Hwb Hws Hfl Hlen Hlo Hhi Hslo Hshi Hin).
    rewrite Hlaw. reflexivity.
Qed.

Lemma unknown_names_raise_witness :
  StarSpectrum.apmag Demo.world Demo.flat_band "XYZ" 0 Demo.flat_star
  = mk_outcome (Raise invalid_system) Demo.flat_star []
  /\ StarSpectrum.extinction Demo.world Demo.flat_band "foo" [] Demo.flat_star
     = mk_outcome (Raise invalid_law) Demo.flat_star [].
Proof.
  destruct (unknown_names_raise Demo.world Demo.flat_band Demo.flat_star
              [5000; 6000] [4000; 5000; 5500; 6000; 7000] [1; 1; 1; 1; 1]
              5000 6000 4000 7000) as [Hmag Hlaw];
    try reflexivity; try extremum; [unfold Spec.sticks_out; lra|].
  split.
  - apply Hmag; discriminate.
  - apply Hlaw. reflexivity.
Defined.

(** C10.  Under every system other than ['Vega'] (so under ['AB'] and
    ['ST']) two calls of [apmag] that differ only in [mzero] have the same
    outcome; under ['Vega'] the zero point is the last term of the result. *)
Theorem mzero_only_on_vega (W : World) (band : BandPass.t) (s : StarSpectrum.t)
        (mag : string) (m1 m2 : R) :
  (mag <> "Vega" ->
   StarSpectrum.apmag W band mag m1 s = StarSpectrum.apmag W band mag m2 s)
  /\ (forall v, value (StarSpectrum.apmag W band "Vega" m1 s) = Ok v ->
                value (StarSpectrum.apmag W band "Vega" m2 s) = Ok (v - m1 + m2)).
Proof.
  split.
  - intros Hmag. unfold StarSpectrum.apmag, reads. f_equal.
    destruct (String.eqb_spec mag "Vega") as [->|_]; [contradiction|].
    reflexivity.
  - intros v. unfold StarSpectrum.apmag, reads. cbn [value].
    simpl (String.eqb "Vega" _). cbv iota.
    repeat (match goal with
            | |- context [rbind ?m _] =>
                destruct m; cbn [rbind]; try discriminate
            end).
    intros [= <-]. f_equal. lra.
Qed.

Lemma mzero_only_on_vega_witness :
  StarSpectrum.apmag Demo.world Demo.flat_band "AB" 0 Demo.flat_star
  = StarSpectrum.apmag Demo.world Demo.flat_band "AB" 0.03 Demo.flat_star
  /\ StarSpectrum.apmag Demo.world Demo.flat_band "ST" 0 Demo.flat_star
     = StarSpectrum.apmag Demo.world Demo.flat_band "ST" 0.03 Demo.flat_star.
Proof.
  split.
  - apply (mzero_only_on_vega Demo.world Demo.flat_band Demo.flat_star "AB" 0 0.03).
    discriminate.
  - apply (mzero_only_on_vega Demo.world Demo.flat_band Demo.flat_star "ST" 0 0.03).
    discriminate.
Defined.

(** ** Building a bandpass *)

Lemma loadascii_ok (W : World) (path : string) (data : ndarray) (c0 c1 : list R)
      (b : BandPass.t) :
  loadtxt W path = Ok data -> column data 0 = Ok c0 -> column data 1 = Ok c1 ->
  BandPass.loadascii W path b
  = mk_outcome (Ok tt)
               (BandPass.mk (Some c0) (BandPass.flux b) (Some (stem W path))
                            (BandPass.interpolated_response b) (BandPass._smt b)
                            (Some c1))
               [].
Proof.
  intros Hdata H0 H1. unfold BandPass.loadascii, mbind, reads, assign.
  cbn [value self warned]. rewrite Hdata. cbn [value self warned BandPass.wavelength
    BandPass.flux BandPass.name BandPass.interpolated_response BandPass._smt
    BandPass.response app].
  rewrite H0. cbn [value self warned BandPass.wavelength
    BandPass.flux BandPass.name BandPass.interpolated_response BandPass._smt
    BandPass.response app].
  rewrite H1. reflexivity.
Qed.

Ltac run_meth :=
  cbn [mbind reads assign ret raise warn value self warned app
       BandPass.wavelength BandPass.flux BandPass.name
       BandPass.interpolated_response BandPass._smt BandPass.response].

Lemma smooth_built (W : World) (kind : string) (b : BandPass.t) :
  BandPass.interpolated_response b = None ->
  built (self (BandPass.smooth W kind b)).
Proof.
  intros Hnone. unfold BandPass.smooth, mbind, reads, assign. run_meth.
  destruct (BandPass.response b) as [ys|]; run_meth; [|unfold built; rewrite Hnone; exact I].
  destruct (BandPass.wavelength b) as [xs|] eqn:Hxs; run_meth;
    [|unfold built; rewrite Hnone; exact I].
  unfold Scipy.interp1d. destruct (reject W kind xs ys); run_meth.
  - unfold built. rewrite Hnone. exact I.
  - unfold built. cbn. auto.
Qed.

Lemma self_reads {S A : Type} (f : S -> result A) (s : S) : self (reads f s) = s.
Proof. reflexivity. Qed.

Lemma value_reads {S A : Type} (f : S -> result A) (s : S) : value (reads f s) = f s.
Proof. reflexivity. Qed.

Lemma loadascii_keeps_interpolant (W : World) (path : string) (b : BandPass.t) :
  BandPass.interpolated_response (self (BandPass.loadascii W path b))
  = BandPass.interpolated_response b.
Proof.
  unfold BandPass.loadascii, mbind, reads, assign. run_meth.
  destruct (loadtxt W path) as [data|e]; run_meth; [|reflexivity].
  destruct (column data 0) as [c0|e]; run_meth; [|reflexivity].
  destruct (column data 1) as [c1|e]; run_meth; reflexivity.
Qed.

Lemma load_and_smooth_built (W : World) (path : string) (b : BandPass.t) :
  BandPass.interpolated_response b = None ->
  built (self (BandPass.load_and_smooth W path b)).
Proof.
  intros Hnone. unfold BandPass.load_and_smooth.
  pose proof (loadascii_keeps_interpolant W path b) as Hkeep.
  rewrite Hnone in Hkeep.
  unfold mbind at 1. destruct (value (BandPass.loadascii W path b)); cbn [self].
  - unfold mbind at 1. rewrite value_reads, !self_reads. cbv iota. cbn [self].
    destruct (existsb _ BandPass.smoothings).
    + apply smooth_built. exact Hkeep.
    + unfold raise. cbn [self]. unfold built. rewrite Hkeep. exact I.
  - unfold built. rewrite Hkeep. exact I.
Qed.

Lemma new_built (W : World) (band : option string) (smt : string) :
  built (self (BandPass.new W band smt)).
Proof.
  unfold BandPass.new, BandPass.__init__. unfold mbind at 1. unfold assign at 1.
  cbn [value self warned].
  destruct band as [b|]; [|exact I].
  destruct (BandPass.truthy (Some b)); [|exact I].
  destruct (lookup b (listfilters W)) as [path|].
  - apply load_and_smooth_built. reflexivity.
  - destruct (file_exists W b); [apply load_and_smooth_built; reflexivity | exact I].
Qed.

Lemma x_first_is_min (f : Scipy.interp1d_t) (lo : R) :
  Spec.is_min lo (Scipy.x f) -> Scipy.x_first f = lo.
Proof.
  intros Hlo. unfold Scipy.x_first.
  destruct (Scipy.x f) as [|a xs] eqn:Hx; [destruct Hlo as [[] _]|].
  pose proof (np_min_is_min (a :: xs) lo Hlo) as H. simpl in H.
  injection H as H. exact H.
Qed.

Lemma x_last_is_max (f : Scipy.interp1d_t) (hi : R) :
  Spec.is_max hi (Scipy.x f) -> Scipy.x_last f = hi.
Proof.
  intros Hhi. unfold Scipy.x_last.
  destruct (Scipy.x f) as [|a xs] eqn:Hx; [destruct Hhi as [[] _]|].
  pose proof (np_max_is_max (a :: xs) hi Hhi) as H. simpl in H.
  injection H as H. exact H.
Qed.

Lemma value_at_outside (W : World) (f : Scipy.interp1d_t) (lo hi w : R) :
  Spec.is_min lo (Scipy.x f) -> Spec.is_max hi (Scipy.x f) ->
  w < lo \/ hi < w ->
  Scipy.value_at (kernel W) f w = Scipy.fill_value f.
Proof.
  intros Hlo Hhi Hout. unfold Scipy.value_at, Scipy.below_bounds, Scipy.above_bounds.
  rewrite (x_first_is_min f lo Hlo), (x_last_is_max f hi Hhi).
  destruct Hout as [H | H].
  - rewrite (proj2 (Rltb_true_iff w lo) H). reflexivity.
  - rewrite (proj2 (Rltb_true_iff hi w) H), orb_true_r. reflexivity.
Qed.

(** C7.  A bandpass the constructor has loaded and smoothed, evaluated at
    a wavelength strictly outside the range of its own wavelengths, gives
    exactly 0: the call does not raise, whatever else the queried array
    holds, and the entry for that wavelength is 0. *)
Theorem bandpass_zero_outside (W : World) (band : option string) (smt : string)
        (b : BandPass.t) (f : Scipy.interp1d_t) (wl : list R) (lo hi w : R) :
  self (BandPass.new W band smt) = b ->
  BandPass.interpolated_response b = Some f ->
  BandPass.wavelength b = Some wl ->
  Spec.is_min lo wl -> Spec.is_max hi wl ->
  w < lo \/ hi < w ->
  BandPass.__call__ W b [w] = Ok [0]
  /\ forall x_new, exists out,
       BandPass.__call__ W b x_new = Ok out
       /\ List.length out = List.length x_new
       /\ forall i, nth_error x_new i = Some w -> nth_error out i = Some 0.
Proof.
  intros Hb Hf Hwl Hlo Hhi Hout.
  pose proof (new_built W band smt) as Hbuilt. rewrite Hb in Hbuilt.
  unfold built in Hbuilt. rewrite Hf in Hbuilt.
  destruct Hbuilt as (Hbe & Hfill & Hx). rewrite Hwl in Hx. injection Hx as Hx.
  rewrite Hx in Hlo, Hhi.
  pose proof (value_at_outside W f lo hi w Hlo Hhi Hout) as Hzero.
  rewrite Hfill in Hzero.
  assert (Hcall : forall x_new,
             BandPass.__call__ W b x_new = Ok (map (Scipy.value_at (kernel W) f) x_new)).
  { intros x_new. unfold BandPass.__call__, Scipy.call. rewrite Hf, Hbe. reflexivity. }
  split.
  - rewrite Hcall. cbn [map]. rewrite Hzero. reflexivity.
  - intros x_new. eexists. split; [apply Hcall|]. split; [apply length_map|].
    intros i Hi. rewrite nth_error_map, Hi. cbn [option_map]. rewrite Hzero. reflexivity.
Qed.

Lemma demo_V :
  Demo.V = BandPass.mk (Some [5000; 5500; 6000]) None (Some "V")
                       (Some (Scipy.mk_interp1d [5000; 5500; 6000] [0; 1; 0]
                                                "linear" false 0))
                       "linear" (Some [0; 1; 0]).
Proof. reflexivity. Qed.

Lemma bandpass_zero_outside_witness :
  BandPass.__call__ Demo.world Demo.V [4000] = Ok [0]
  /\ BandPass.__call__ Demo.world Demo.V [6000.5] = Ok [0].
Proof.
  split.
  - apply (bandpass_zero_outside Demo.world (Some "V") "linear" Demo.V
             (Scipy.mk_interp1d [5000; 5500; 6000] [0; 1; 0] "linear" false 0)
             [5000; 5500; 6000] 5000 6000 4000);
      try reflexivity; try extremum. left. lra.
  - apply (bandpass_zero_outside Demo.world (Some "V") "linear" Demo.V
             (Scipy.mk_interp1d [5000; 5500; 6000] [0; 1; 0] "linear" false 0)
             [5000; 5500; 6000] 5000 6000 6000.5);
      try reflexivity; try extremum. right. lra.
Defined.

Lemma flat_grid :
  Spec.grid 5000 6000 [4000; 5000; 5500; 6000; 7000] [1; 1; 1; 1; 1]
  = [(5000, 1); (5500, 1); (6000, 1)].
Proof.
  unfold Spec.grid, Spec.within. cbn [combine filter fst].
  Rdecide. reflexivity.
Qed.

Lemma extinction_formula_witness :
  let g := Spec.grid 5000 6000 [4000; 5000; 5500; 6000; 7000] [1; 1; 1; 1; 1] in
  let Rb := Scipy.value_at (kernel Demo.world)
              (Scipy.mk_interp1d [5000; 6000] [1; 1] "slinear" false 0) in
  let ext := map (law_value 0.5 3.1) [5000; 5500; 6000] in
  StarSpectrum.extinction Demo.world Demo.flat_band "cardelli" Demo.half_magnitude
                          Demo.flat_star
  = mk_outcome
      (Ok (-2.5 * Np.log10
                    (Spec.T3 (fun w fx a => fx * Rb w * w * Rpower 10 (-0.4 * a))
                             (combine g ext)
                     / Spec.T (fun w fx => fx * Rb w * w) g)))
      Demo.flat_star [].
Proof.
  apply (extinction_formula Demo.world Demo.flat_band Demo.flat_star
           (Scipy.mk_interp1d [5000; 6000] [1; 1] "slinear" false 0)
           [5000; 6000] [4000; 5000; 5500; 6000; 7000] [1; 1; 1; 1; 1]
           5000 6000 4000 7000 "cardelli" Extinction.cardelli_kw Demo.half_magnitude
           (map (law_value 0.5 3.1) [5000; 5500; 6000]));
    try reflexivity; try extremum.
  - unfold Spec.sticks_out. lra.
  - rewrite flat_grid. cbn [map fst].
    unfold Extinction.cardelli_kw, Demo.half_magnitude.
    cbn [forallb fst]. simpl (String.eqb _ _). cbn [orb andb Extinction.kwarg].
    simpl (String.eqb _ _). cbv iota.
    apply cardelli_inside. repeat constructor; lra.
  - rewrite flat_grid. reflexivity.
Defined.

Lemma load_and_smooth_unknown (W : World) (path : string) (data : ndarray)
      (c0 c1 : list R) (b : BandPass.t) :
  existsb (String.eqb (BandPass._smt b)) BandPass.smoothings = false ->
  loadtxt W path = Ok data -> column data 0 = Ok c0 -> column data 1 = Ok c1 ->
  value (BandPass.load_and_smooth W path b) = Raise unknown_smoothing.
Proof.
  intros Hkind Hdata H0 H1. unfold BandPass.load_and_smooth.
  unfold mbind at 1. rewrite (loadascii_ok W path data c0 c1 b Hdata H0 H1).
  cbn [value self warned]. unfold mbind at 1. rewrite value_reads, !self_reads.
  cbv iota. cbn [BandPass._smt value]. rewrite Hkind. reflexivity.
Qed.

(** C9 (as amended).  With a smoothing kind outside the enumerated set,
    the constructor raises [ValueError('Unknown type of smoothing')] when
    the band names a filter of the library or an existing file and that
    file loads as a table of two columns; with no band, or an empty one, it
    returns an unloaded object; with a band that is neither a filter nor a
    file it warns and returns an unloaded object. *)
Theorem unknown_smoothing_kind (W : World) (band : option string) (smt : string) :
  existsb (String.eqb smt) BandPass.smoothings = false ->
  (forall b path data c0 c1,
      band = Some b -> b <> "" ->
      lookup b (listfilters W) = Some path
      \/ (lookup b (listfilters W) = None /\ file_exists W b = true /\ path = b) ->
      loadtxt W path = Ok data -> column data 0 = Ok c0 -> column data 1 = Ok c1 ->
      value (BandPass.new W band smt) = Raise unknown_smoothing)
  /\ (band = None \/ band = Some "" ->
      BandPass.new W band smt = mk_outcome (Ok tt) (unloaded smt) [])
  /\ (forall b,
         band = Some b -> b <> "" ->
         lookup b (listfilters W) = None -> file_exists W b = false ->
         BandPass.new W band smt
         = mk_outcome (Ok tt) (unloaded smt)
                      [("Warning: Could not find filter or file " ++ b ++ " ")%string]).
Proof.
  intros Hkind. split; [|split].
  - intros b path data c0 c1 -> Hb Hfound Hdata H0 H1.
    unfold BandPass.new, BandPass.__init__. unfold mbind at 1. unfold assign at 1.
    cbn [value self warned]. unfold BandPass.truthy.
    destruct (String.eqb_spec b "") as [->|_]; [contradiction|]. cbn [negb].
    destruct Hfound as [-> | (-> & -> & ->)].
    + exact (load_and_smooth_unknown W path data c0 c1 (unloaded smt) Hkind Hdata H0 H1).
    + exact (load_and_smooth_unknown W b data c0 c1 (unloaded smt) Hkind Hdata H0 H1).
  - intros [-> | ->]; reflexivity.
  - intros b -> Hb Hlib Hfile.
    unfold BandPass.new, BandPass.__init__. unfold mbind at 1. unfold assign at 1.
    cbn [value self warned]. unfold BandPass.truthy.
    destruct (String.eqb_spec b "") as [->|_]; [contradiction|]. cbn [negb].
    rewrite Hlib, Hfile. reflexivity.
Qed.

Lemma unknown_smoothing_kind_witness :
  value (BandPass.new Demo.world (Some "V") "spline") = Raise unknown_smoothing.
Proof.
  destruct (unknown_smoothing_kind Demo.world (Some "V") "spline" eq_refl)
    as (Hraise & _ & _).
  apply (Hraise "V" Demo.V_path Demo.V_dat [5000; 5500; 6000] [0; 1; 0]);
    try reflexivity.
  - discriminate.
  - left. reflexivity.
Defined.

(** The claim of C9 as stated fails: a band that is supplied but is
    neither a filter of the library nor a file gives a warning and an
    object, whatever the smoothing kind. *)
Lemma unknown_smoothing_counterexample :
  existsb (String.eqb "spline") BandPass.smoothings = false
  /\ BandPass.new Demo.world (Some "Z") "spline"
     = mk_outcome (Ok tt) (unloaded "spline")
                  ["Warning: Could not find filter or file Z "].
Proof. split; reflexivity. Qed.

(** ** The flat scenario, run

    A flat bandpass over [5000, 6000] against a flat spectrum over
    [4000, 7000]: the check selects the three inner samples, the bandpass
    answers 1 on them, and the numerator of every magnitude is the integral
    of [w] over the band. *)

Example flat_waverange :
  StarSpectrum._waverange (Some [5000; 6000]) (Some [4000; 5000; 5500; 6000; 7000])
  = Ok [1%nat; 2%nat; 3%nat].
Proof.
  rewrite (waverange_eq [5000; 6000] [4000; 5000; 5500; 6000; 7000] 5000 6000 4000 7000)
    by extremum.
  Rdecide. cbn [orb map]. Rdecide. reflexivity.
Qed.

Example flat_response :
  BandPass.__call__ Demo.world Demo.flat_band [5000; 5500; 6000] = Ok [1; 1; 1].
Proof.
  unfold BandPass.__call__, Demo.flat_band, Scipy.call.
  cbn [BandPass.interpolated_response Scipy.bounds_error andb map].
  unfold Scipy.value_at, Scipy.below_bounds, Scipy.above_bounds, Scipy.x_first,
    Scipy.x_last.
  cbn [Scipy.x Scipy.y Scipy.kind Scipy.fill_value tl hd fold_left kernel Demo.world
       Demo.linear].
  Rdecide. cbn [orb]. Rdecide. repeat f_equal; lra.
Qed.

Example flat_band_flux :
  StarSpectrum.band_flux Demo.world Demo.flat_band [1; 1; 1] [5000; 5500; 6000]
  = Ok 5500000.
Proof.
  unfold StarSpectrum.band_flux. rewrite flat_response. cbn [rbind].
  unfold Np.mul. rewrite broadcast_same_length by reflexivity.
  cbn [rbind Np.zip_with]. rewrite broadcast_same_length by reflexivity.
  cbn [rbind Np.zip_with]. rewrite trapz_combine by reflexivity.
  cbn [combine Spec.trapezoid]. f_equal. lra.
Qed.

Example cardelli_V_band :
  Extinction.cardelli [5500] 1 3.1
  = Ok [scaled 1 3.1 (Extinction.optical (1e4 / 5500))].
Proof.
  rewrite cardelli_inside by (repeat constructor; lra).
  cbn [map]. unfold law_value, region_coefficients. Rdecide. reflexivity.
Qed.

(** * Further properties of the code *)

(** ** The law and its parameters *)

Lemma extinction_at_scale (k A Rv w : R) :
  match Extinction.extinction_at A Rv w with
  | Ok v => Extinction.extinction_at (k * A) Rv w = Ok (k * v)
  | Raise e => Extinction.extinction_at (k * A) Rv w = Raise e
  end.
Proof.
  unfold Extinction.extinction_at. cbv zeta.
  destruct (Extinction.coefficients (Extinction.inverse_micron w)) as [[a b]|e];
    cbn [rbind]; [|reflexivity].
  f_equal. ring.
Qed.

(** X1.  The law is linear in [A]: where it returns for [A] it returns for
    [k*A], every value multiplied by [k]. *)
Theorem cardelli_linear_in_A (ws : list R) (A Rv k : R) (vs : list R) :
  Extinction.cardelli ws A Rv = Ok vs ->
  Extinction.cardelli ws (k * A) Rv = Ok (map (Rmult k) vs).
Proof.
  unfold Extinction.cardelli. revert vs.
  induction ws as [|w ws IH]; intros vs; cbn [mapM].
  - intros [= <-]. reflexivity.
  - pose proof (extinction_at_scale k A Rv w) as Hw.
    destruct (Extinction.extinction_at A Rv w) as [v|e]; cbn [rbind]; [|discriminate].
    rewrite Hw. cbn [rbind].
    destruct (mapM (Extinction.extinction_at A Rv) ws) as [vs'|e]; cbn [rbind];
      [|discriminate].
    intros [= <-]. rewrite (IH vs' eq_refl). reflexivity.
Qed.

Lemma cardelli_linear_in_A_witness :
  Extinction.cardelli [5000; 5500; 6000] (2 * 0.5) 3.1
  = Ok (map (Rmult 2) (map (law_value 0.5 3.1) [5000; 5500; 6000])).
Proof.
  apply (cardelli_linear_in_A [5000; 5500; 6000] 0.5 3.1 2).
  apply cardelli_inside. repeat constructor; lra.
Defined.

Lemma extinction_at_error (A Rv A' Rv' w : R) (e : exn) :
  Extinction.extinction_at A Rv w = Raise e ->
  Extinction.extinction_at A' Rv' w = Raise e.
Proof.
  unfold Extinction.extinction_at. cbv zeta.
  destruct (Extinction.coefficients (Extinction.inverse_micron w)) as [[a b]|e'];
    cbn [rbind]; [discriminate | auto].
Qed.

Lemma extinction_at_returns (A Rv A' Rv' w v : R) :
  Extinction.extinction_at A Rv w = Ok v ->
  exists v', Extinction.extinction_at A' Rv' w = Ok v'.
Proof.
  unfold Extinction.extinction_at. cbv zeta.
  destruct (Extinction.coefficients (Extinction.inverse_micron w)) as [[a b]|e'];
    cbn [rbind]; [eauto | discriminate].
Qed.

(** X2.  Whether the law raises, and what, is decided by the wavelengths
    alone: two calls that differ only in [A] and [Rv] raise the same error
    or both return, with as many values. *)
Theorem cardelli_error_ignores_parameters (ws : list R) (A Rv A' Rv' : R) :
  (forall e, Extinction.cardelli ws A Rv = Raise e ->
             Extinction.cardelli ws A' Rv' = Raise e)
  /\ (forall vs, Extinction.cardelli ws A Rv = Ok vs ->
                 exists vs', Extinction.cardelli ws A' Rv' = Ok vs'
                             /\ List.length vs' = List.length vs).
Proof.
  unfold Extinction.cardelli. induction ws as [|w ws [IHe IHv]]; cbn [mapM].
  - split; [discriminate|]. intros vs [= <-]. exists []. split; reflexivity.
  - split.
    + intros e.
      destruct (Extinction.extinction_at A Rv w) as [v|e1] eqn:Hw; cbn [rbind].
      * destruct (extinction_at_returns A Rv A' Rv' w v Hw) as [v' ->]. cbn [rbind].
        destruct (mapM (Extinction.extinction_at A Rv) ws) as [vs|e2]; cbn [rbind];
          [discriminate|].
        intros [= <-]. rewrite (IHe e2 eq_refl). reflexivity.
      * intros [= <-]. rewrite (extinction_at_error A Rv A' Rv' w e1 Hw). reflexivity.
    + intros vs.
      destruct (Extinction.extinction_at A Rv w) as [v|e1] eqn:Hw; cbn [rbind];
        [|discriminate].
      destruct (extinction_at_returns A Rv A' Rv' w v Hw) as [v' ->]. cbn [rbind].
      destruct (mapM (Extinction.extinction_at A Rv) ws) as [vs0|e2]; cbn [rbind];
        [|discriminate].
      intros [= <-]. destruct (IHv vs0 eq_refl) as (vs' & -> & Hlen). cbn [rbind].
      exists (v' :: vs'). split; [reflexivity | simpl; rewrite Hlen; reflexivity].
Qed.

Lemma coefficients_too_long (X : R) :
  X < 0.3 -> Extinction.coefficients X = Raise Extinction.too_long.
Proof.
  intros HX. unfold Extinction.coefficients.
  rewrite (proj2 (Rltb_true_iff X 0.3) HX). reflexivity.
Qed.

Lemma coefficients_too_short (X : R) :
  10 <= X -> Extinction.coefficients X = Raise Extinction.too_short.
Proof.
  intros HX. unfold Extinction.coefficients.
  Rcases; cbn [andb]; try reflexivity; exfalso; lra.
Qed.

Lemma mapM_app_raise {A B : Type} (f : A -> result B) (pre post : list A) (a : A)
      (bs : list B) (e : exn) :
  mapM f pre = Ok bs -> f a = Raise e -> mapM f (pre ++ a :: post) = Raise e.
Proof.
  revert bs. induction pre as [|p pre IH]; intros bs Hpre Ha; cbn [mapM app].
  - rewrite Ha. reflexivity.
  - cbn [mapM] in Hpre. destruct (f p) as [b|e']; cbn [rbind] in *; [|discriminate].
    destruct (mapM f pre) as [bs'|e']; cbn [rbind] in *; [|discriminate].
    rewrite (IH bs' eq_refl Ha). reflexivity.
Qed.



(** ** Rescaling the flux *)

Lemma refluxed_loaded (theta : R) (s : StarSpectrum.t) (fl : list R) :
  StarSpectrum.flux s = Some fl ->
  refluxed theta s
  = StarSpectrum.mk (StarSpectrum.wavelength s) (Some (Np.muls fl (theta ^ 2)))
                    (StarSpectrum._file s).
Proof.
  intros Hfl. unfold refluxed, StarSpectrum.reflux, mbind, reads, assign.
  cbn [value self warned]. rewrite Hfl. reflexivity.
Qed.

Lemma refluxed_unloaded (theta : R) (s : StarSpectrum.t) :
  StarSpectrum.flux s = None -> refluxed theta s = s.
Proof.
  intros Hfl. unfold refluxed, StarSpectrum.reflux, mbind, reads, assign.
  cbn [value self warned]. rewrite Hfl. reflexivity.
Qed.

(** X4.  Two rescalings in a row are one rescaling by the product of the
    factors: same outcome, same spectrum. *)
Theorem reflux_compose (a b : R) (s : StarSpectrum.t) :
  (StarSpectrum.reflux a ;; StarSpectrum.reflux b)%meth s
  = StarSpectrum.reflux (a * b) s.
Proof.
  unfold StarSpectrum.reflux, mbind, reads, assign. cbn [value self warned].
  destruct (StarSpectrum.flux s) as [fl|] eqn:Hfl; cbn [value self warned app
    StarSpectrum.flux StarSpectrum.wavelength StarSpectrum._file]; [|reflexivity].
  f_equal. f_equal. f_equal. unfold Np.muls. rewrite map_map.
  apply map_ext. intros v. ring.
Qed.

(** X5.  Rescaling by [theta] and then by [1/theta] gives the spectrum
    back, for every non-zero [theta] and every loaded flux. *)
Theorem reflux_inverse (theta : R) (s : StarSpectrum.t) (fl : list R) :
  theta <> 0 ->
  StarSpectrum.flux s = Some fl ->
  (StarSpectrum.reflux theta ;; StarSpectrum.reflux (1 / theta))%meth s
  = mk_outcome (Ok tt) s [].
Proof.
  intros Htheta Hfl.
  unfold StarSpectrum.reflux, mbind, reads, assign. cbn [value self warned].
  rewrite Hfl. cbn [value self warned app StarSpectrum.flux StarSpectrum.wavelength
                    StarSpectrum._file].
  f_equal. destruct s as [w fx file]. cbn in *. subst fx. f_equal. f_equal.
  unfold Np.muls. rewrite map_map. rewrite <- (map_id fl) at 2.
  apply map_ext. intros v. field. exact Htheta.
Qed.

Lemma reflux_inverse_witness :
  (StarSpectrum.reflux 2 ;; StarSpectrum.reflux (1 / 2))%meth Demo.flat_star
  = mk_outcome (Ok tt) Demo.flat_star [].
Proof.
  apply (reflux_inverse 2 Demo.flat_star [1; 1; 1; 1; 1]); [lra | reflexivity].
Defined.

Lemma take_scaled (k : R) (fl : list R) (r : list nat) :
  Np.take (Some (Np.muls fl k)) r = rmap (fun a => Np.muls a k) (Np.take (Some fl) r).
Proof.
  unfold Np.take, Np.muls. induction r as [|i r IH]; cbn [mapM]; [reflexivity|].
  rewrite nth_error_map. destruct (nth_error fl i) as [v|]; cbn [option_map rbind];
    [|reflexivity].
  rewrite IH.
  match goal with |- context [rmap _ ?m] => destruct m end; reflexivity.
Qed.

Lemma zip_mul_scaled (k : R) (a b : list R) :
  Np.zip_with Rmult (Np.muls a k) b = Np.muls (Np.zip_with Rmult a b) k.
Proof.
  unfold Np.muls. revert b. induction a as [|u a IH]; intros [|v b]; cbn;
    try reflexivity.
  rewrite IH. f_equal. ring.
Qed.

Lemma mul_scaled (k : R) (a b : list R) :
  Np.mul (Np.muls a k) b = rmap (fun p => Np.muls p k) (Np.mul a b).
Proof.
  unfold Np.mul, Np.broadcast. unfold Np.muls at 1. rewrite length_map.
  destruct (Nat.eqb (List.length a) (List.length b)); cbn [rmap].
  - rewrite zip_mul_scaled. reflexivity.
  - destruct a as [|u [|u' a]], b as [|v [|v' b]]; cbn [map rmap]; try reflexivity;
      unfold Np.muls; cbn [map]; rewrite ?map_map;
      repeat match goal with
        | |- Ok _ = Ok _ => f_equal
        | |- ?x :: ?l = ?y :: ?l' =>
            replace y with x by ring; apply (f_equal (cons x))
        | |- map _ ?l = map _ ?l => apply map_ext; intros; ring
        | |- _ => reflexivity
        end.
Qed.

Ltac list_ring :=
  repeat match goal with
    | |- Ok _ = Ok _ => f_equal
    | |- ?x :: ?l = ?y :: ?l' =>
        replace y with x by ring; apply (f_equal (cons x))
    | |- map _ ?l = map _ ?l => apply map_ext; intros; ring
    | |- _ => reflexivity
    end.

Lemma zip_mul_scaled_r (k : R) (a b : list R) :
  Np.zip_with Rmult a (Np.muls b k) = Np.muls (Np.zip_with Rmult a b) k.
Proof.
  unfold Np.muls. revert b. induction a as [|u a IH]; intros [|v b]; cbn;
    try reflexivity.
  rewrite IH. f_equal. ring.
Qed.

Lemma mul_scaled_r (k : R) (a b : list R) :
  Np.mul a (Np.muls b k) = rmap (fun p => Np.muls p k) (Np.mul a b).
Proof.
  unfold Np.mul, Np.broadcast. unfold Np.muls at 1. rewrite length_map.
  destruct (Nat.eqb (List.length a) (List.length b)); cbn [rmap].
  - rewrite zip_mul_scaled_r. reflexivity.
  - destruct a as [|u [|u' a]], b as [|v [|v' b]]; cbn [map rmap]; try reflexivity;
      unfold Np.muls; cbn [map]; rewrite ?map_map; list_ring.
Qed.

Lemma zip_add_scaled (k : R) (a b : list R) :
  Np.zip_with Rplus (Np.muls a k) (Np.muls b k) = Np.muls (Np.zip_with Rplus a b) k.
Proof.
  unfold Np.muls. revert b. induction a as [|u a IH]; intros [|v b]; cbn;
    try reflexivity.
  rewrite IH. f_equal. ring.
Qed.

Lemma add_scaled (k : R) (a b : list R) :
  Np.add (Np.muls a k) (Np.muls b k) = rmap (fun p => Np.muls p k) (Np.add a b).
Proof.
  unfold Np.add, Np.broadcast. unfold Np.muls at 1 2. rewrite !length_map.
  destruct (Nat.eqb (List.length a) (List.length b)); cbn [rmap].
  - fold (Np.muls a k). fold (Np.muls b k). rewrite zip_add_scaled. reflexivity.
  - destruct a as [|u [|u' a]], b as [|v [|v' b]]; cbn [map rmap]; try reflexivity;
      unfold Np.muls; cbn [map]; rewrite ?map_map; list_ring.
Qed.

Lemma init_scaled (k : R) (y : list R) : Np.init (Np.muls y k) = Np.muls (Np.init y) k.
Proof.
  unfold Np.init, Np.muls. induction y as [|v [|v' y] IH]; try reflexivity.
  cbn [map removelast] in *. rewrite IH. reflexivity.
Qed.

Lemma tail_scaled (k : R) (y : list R) : Np.tail (Np.muls y k) = Np.muls (Np.tail y) k.
Proof. destruct y; reflexivity. Qed.

Lemma sum_scaled (k : R) (p : list R) :
  Np.sum (Np.divs (Np.muls p k) 2.0) = Np.sum (Np.divs p 2.0) * k.
Proof.
  induction p as [|v p IH]; [unfold Np.sum; simpl; ring|].
  cbn [Np.muls Np.divs map]. rewrite !sum_cons.
  change (map (fun x => x / 2.0) (map (fun x => x * k) p))
    with (Np.divs (Np.muls p k) 2.0).
  change (map (fun x => x / 2.0) p) with (Np.divs p 2.0).
  rewrite IH. unfold Rdiv. ring.
Qed.

Lemma trapz_scaled (k : R) (y x : list R) :
  Np.trapz (Np.muls y k) x = rmap (fun v => v * k) (Np.trapz y x).
Proof.
  unfold Np.trapz. rewrite tail_scaled, init_scaled, add_scaled.
  destruct (Np.add (Np.tail y) (Np.init y)) as [s|e]; cbn [rmap rbind]; [|reflexivity].
  rewrite mul_scaled_r.
  destruct (Np.mul (Np.diff x) s) as [p|e]; cbn [rmap rbind]; [|reflexivity].
  rewrite sum_scaled. reflexivity.
Qed.

Lemma band_flux_scaled (W : World) (band : BandPass.t) (k : R) (fr wr : list R) :
  StarSpectrum.band_flux W band (Np.muls fr k) wr
  = rmap (fun v => v * k) (StarSpectrum.band_flux W band fr wr).
Proof.
  unfold StarSpectrum.band_flux.
  destruct (BandPass.__call__ W band wr) as [bw|e]; cbn [rbind rmap]; [|reflexivity].
  rewrite mul_scaled.
  destruct (Np.mul fr bw) as [p|e]; cbn [rbind rmap]; [|reflexivity].
  rewrite mul_scaled.
  destruct (Np.mul p wr) as [q|e]; cbn [rbind rmap]; [|reflexivity].
  apply trapz_scaled.
Qed.

(** X6.  The extinction does not depend on the scale of the flux: after
    [reflux(theta)] with a non-zero [theta], [extinction] returns what it
    returned before, or raises what it raised before, for every bandpass,
    law and keyword arguments. *)
Theorem extinction_ignores_reflux (W : World) (band : BandPass.t) (law : string)
        (kw : Extinction.kwargs) (theta : R) (s : StarSpectrum.t) :
  theta <> 0 ->
  value (StarSpectrum.extinction W band law kw (refluxed theta s))
  = value (StarSpectrum.extinction W band law kw s).
Proof.
  intros Htheta.
  destruct (StarSpectrum.flux s) as [fl|] eqn:Hfl;
    [|rewrite (refluxed_unloaded theta s Hfl); reflexivity].
  rewrite (refluxed_loaded theta s fl Hfl).
  assert (Hk : theta ^ 2 <> 0) by (apply pow_nonzero; exact Htheta).
  set (k := theta ^ 2) in *.
  unfold StarSpectrum.extinction, reads. cbn [value].
  cbn [StarSpectrum.wavelength StarSpectrum.flux]. rewrite Hfl.
  destruct (StarSpectrum._waverange _ _) as [r|e]; cbn [rbind]; [|reflexivity].
  destruct (Np.take (StarSpectrum.wavelength s) r) as [wr|e]; cbn [rbind]; [|reflexivity].
  rewrite take_scaled.
  destruct (Np.take (Some fl) r) as [fr|e]; cbn [rbind rmap]; [|reflexivity].
  destruct (lookup law (extlaws W)) as [the_law|]; cbn [rbind]; [|reflexivity].
  rewrite band_flux_scaled.
  destruct (BandPass.__call__ W band wr) as [bw|e]; cbn [rbind]; [|reflexivity].
  rewrite mul_scaled.
  destruct (Np.mul fr bw) as [p|e]; cbn [rbind rmap]; [|reflexivity].
  rewrite mul_scaled.
  destruct (Np.mul p wr) as [q|e]; cbn [rbind rmap]; [|reflexivity].
  destruct (the_law wr kw) as [ext|e]; cbn [rbind]; [|reflexivity].
  rewrite mul_scaled.
  destruct (Np.mul q _) as [q'|e]; cbn [rbind rmap]; [|reflexivity].
  rewrite trapz_scaled.
  destruct (Np.trapz q' wr) as [num|e]; cbn [rbind rmap]; [|reflexivity].
  destruct (StarSpectrum.band_flux W band fr wr) as [den|e]; cbn [rbind rmap];
    [|reflexivity].
  do 3 f_equal. unfold Rdiv. rewrite Rinv_mult.
  replace (num * k * (/ den * / k)) with (num * / den * (k * / k)) by ring.
  rewrite (Rinv_r k Hk). ring.
Qed.

Lemma extinction_ignores_reflux_witness :
  value (StarSpectrum.extinction Demo.world Demo.flat_band "cardelli"
                                 Demo.half_magnitude (refluxed 2 Demo.flat_star))
  = value (StarSpectrum.extinction Demo.world Demo.flat_band "cardelli"
                                   Demo.half_magnitude Demo.flat_star).
Proof.
  apply (extinction_ignores_reflux Demo.world Demo.flat_band "cardelli"
           Demo.half_magnitude 2 Demo.flat_star).
  lra.
Defined.

Lemma log10_scaled (f theta : R) :
  0 < f -> 0 < theta ->
  Np.log10 (f * theta ^ 2) = Np.log10 f + 2 * Np.log10 theta.
Proof.
  intros Hf Ht. unfold Np.log10.
  rewrite ln_mult by (try apply pow_lt; assumption).
  rewrite (ln_pow theta Ht 2). simpl INR. unfold Rdiv. ring.
Qed.

(** The prologue of [apmag] and [extinction] on a rescaled spectrum: the
    grid is the same, the fluxes on it are scaled. *)
Lemma prologue_refluxed (band : BandPass.t) (s : StarSpectrum.t) (wb ws fl : list R)
      (lo hi slo shi theta : R) {A : Type} (k : list R -> list R -> result A) :
  BandPass.wavelength band = Some wb ->
  StarSpectrum.wavelength s = Some ws ->
  StarSpectrum.flux s = Some fl ->
  List.length fl = List.length ws ->
  Spec.is_min lo wb -> Spec.is_max hi wb ->
  Spec.is_min slo ws -> Spec.is_max shi ws ->
  ~ Spec.sticks_out lo hi slo shi ->
  (r <- StarSpectrum._waverange (BandPass.wavelength band)
                                (StarSpectrum.wavelength (refluxed theta s)) ;;
   wr <- Np.take (StarSpectrum.wavelength (refluxed theta s)) r ;;
   fr <- Np.take (StarSpectrum.flux (refluxed theta s)) r ;;
   k wr fr)
  = k (map fst (Spec.grid lo hi ws fl))
      (Np.muls (map snd (Spec.grid lo hi ws fl)) (theta ^ 2)).
Proof.
  intros Hwb Hws Hfl Hlen Hlo Hhi Hslo Hshi Hin.
  rewrite (refluxed_loaded theta s fl Hfl).
  cbn [StarSpectrum.wavelength StarSpectrum.flux].
  rewrite Hwb, Hws, (waverange_eq wb ws lo hi slo shi Hlo Hhi Hslo Hshi).
  destruct ((lo <? slo) || (shi <? hi)) eqn:Hout;
    [exfalso; apply Hin, sticks_out_iff, Hout|].
  cbn [rbind].
  rewrite (take_grid_wavelength lo hi ws fl Hlen). cbn [rbind].
  rewrite take_scaled, (take_grid_flux lo hi ws fl Hlen). reflexivity.
Qed.

(** X7.  Rescaling the flux by a positive [theta] lowers the magnitude by
    [5*log10(theta)] in the AB and in the ST system, whenever the flux
    ratio under the logarithm is positive. *)
Theorem reflux_shifts_magnitude (W : World) (band : BandPass.t) (s : StarSpectrum.t)
        (f : Scipy.interp1d_t) (wb ws fl : list R) (lo hi slo shi theta mzero : R) :
  BandPass.wavelength band = Some wb ->
  BandPass.interpolated_response band = Some f ->
  Scipy.bounds_error f = false ->
  StarSpectrum.wavelength s = Some ws ->
  StarSpectrum.flux s = Some fl ->
  List.length fl = List.length ws ->
  Spec.is_min lo wb -> Spec.is_max hi wb ->
  Spec.is_min slo ws -> Spec.is_max shi ws ->
  ~ Spec.sticks_out lo hi slo shi ->
  0 < theta ->
  let g := Spec.grid lo hi ws fl in
  let Rb := Scipy.value_at (kernel W) f in
  let N := Spec.T (fun w fx => fx * Rb w * w) g in
  (0 < N / Spec.T (fun w _ => Rb w * c / w) g ->
   value (StarSpectrum.apmag W band "AB" mzero (refluxed theta s))
   = rmap (fun m => m - 5 * Np.log10 theta)
          (value (StarSpectrum.apmag W band "AB" mzero s)))
  /\ (0 < N / Spec.T (fun w _ => Rb w * w) g ->
      value (StarSpectrum.apmag W band "ST" mzero (refluxed theta s))
      = rmap (fun m => m - 5 * Np.log10 theta)
             (value (StarSpectrum.apmag W band "ST" mzero s))).
Proof.
  intros Hwb Hf Hbe Hws Hfl Hlen Hlo Hhi Hslo Hshi Hin Htheta g Rb N.
  split; intros Hpos; unfold StarSpectrum.apmag, reads; cbn [value].
  - rewrite (prologue band s wb ws fl lo hi slo shi _ Hwb Hws Hfl Hlen Hlo Hhi Hslo Hshi Hin).
    rewrite (prologue_refluxed band s wb ws fl lo hi slo shi theta _
               Hwb Hws Hfl Hlen Hlo Hhi Hslo Hshi Hin).
    fold g. simpl (String.eqb "AB" _). cbv iota.
    rewrite band_flux_scaled, (band_flux_map W band f fst snd g Hf Hbe). cbn [rbind rmap].
    rewrite (call_map W band f fst g Hf Hbe). cbn [rbind].
    unfold Np.muls. rewrite !map_map.
    rewrite (div_map (fun p => Scipy.value_at (kernel W) f (fst p) * c) fst g). cbn [rbind].
    rewrite (trapz_map fst (fun p => Scipy.value_at (kernel W) f (fst p) * c / fst p) g).
    cbn [rbind rmap]. f_equal.
    change (Spec.trapezoid (map (fun p : R * R =>
              (fst p, snd p * Scipy.value_at (kernel W) f (fst p) * fst p)) g)) with N.
    change (Spec.trapezoid (map (fun p : R * R =>
              (fst p, Scipy.value_at (kernel W) f (fst p) * c / fst p)) g))
      with (Spec.T (fun w _ => Rb w * c / w) g) in *.
    set (D := Spec.T (fun w _ => Rb w * c / w) g) in *.
    replace (N * theta ^ 2 / D) with (N / D * theta ^ 2) by (unfold Rdiv; ring).
    rewrite (log10_scaled _ _ Hpos Htheta). lra.
  - rewrite (prologue band s wb ws fl lo hi slo shi _ Hwb Hws Hfl Hlen Hlo Hhi Hslo Hshi Hin).
    rewrite (prologue_refluxed band s wb ws fl lo hi slo shi theta _
               Hwb Hws Hfl Hlen Hlo Hhi Hslo Hshi Hin).
    fold g. simpl (String.eqb "ST" _). cbv iota.
    rewrite band_flux_scaled, (band_flux_map W band f fst snd g Hf Hbe). cbn [rbind rmap].
    rewrite (call_map W band f fst g Hf Hbe). cbn [rbind].
    rewrite (mul_map (fun p => Scipy.value_at (kernel W) f (fst p)) fst g). cbn [rbind].
    rewrite (trapz_map fst (fun p => Scipy.value_at (kernel W) f (fst p) * fst p) g).
    cbn [rbind rmap]. f_equal.
    change (Spec.trapezoid (map (fun p : R * R =>
              (fst p, snd p * Scipy.value_at (kernel W) f (fst p) * fst p)) g)) with N.
    change (Spec.trapezoid (map (fun p : R * R =>
              (fst p, Scipy.value_at (kernel W) f (fst p) * fst p)) g))
      with (Spec.T (fun w _ => Rb w * w) g) in *.
    set (D := Spec.T (fun w _ => Rb w * w) g) in *.
    replace (N * theta ^ 2 / D) with (N / D * theta ^ 2) by (unfold Rdiv; ring).
    rewrite (log10_scaled _ _ Hpos Htheta). lra.
Qed.

Lemma flat_Rb (w : R) :
  5000 <= w <= 6000 ->
  Scipy.value_at (kernel Demo.world)
                 (Scipy.mk_interp1d [5000; 6000] [1; 1] "slinear" false 0) w = 1.
Proof.
  intros Hw. unfold Scipy.value_at, Scipy.below_bounds, Scipy.above_bounds,
    Scipy.x_first, Scipy.x_last.
  cbn [Scipy.x Scipy.y Scipy.kind Scipy.fill_value tl hd fold_left kernel Demo.world
       Demo.linear].
  rewrite (Rmin_left 5000 6000), (Rmax_right 5000 6000) by lra.
  Rcases; cbn [orb]; lra.
Qed.

Lemma flat_numerator :
  Spec.T (fun w fx =>
            fx * Scipy.value_at (kernel Demo.world)
                   (Scipy.mk_interp1d [5000; 6000] [1; 1] "slinear" false 0) w * w)
         (Spec.grid 5000 6000 [4000; 5000; 5500; 6000; 7000] [1; 1; 1; 1; 1])
  = 5500000.
Proof.
  rewrite flat_grid. unfold Spec.T. cbn [map fst snd Spec.trapezoid].
  rewrite !flat_Rb by lra. lra.
Qed.

Lemma flat_ST_denominator :
  Spec.T (fun w _ =>
            Scipy.value_at (kernel Demo.world)
              (Scipy.mk_interp1d [5000; 6000] [1; 1] "slinear" false 0) w * w)
         (Spec.grid 5000 6000 [4000; 5000; 5500; 6000; 7000] [1; 1; 1; 1; 1])
  = 5500000.
Proof.
  rewrite flat_grid. unfold Spec.T. cbn [map fst snd Spec.trapezoid].
  rewrite !flat_Rb by lra. lra.
Qed.

Lemma reflux_shifts_magnitude_witness :
  value (StarSpectrum.apmag Demo.world Demo.flat_band "ST" 0 (refluxed 10 Demo.flat_star))
  = rmap (fun m => m - 5 * Np.log10 10)
         (value (StarSpectrum.apmag Demo.world Demo.flat_band "ST" 0 Demo.flat_star)).
Proof.
  apply (reflux_shifts_magnitude Demo.world Demo.flat_band Demo.flat_star
           (Scipy.mk_interp1d [5000; 6000] [1; 1] "slinear" false 0)
           [5000; 6000] [4000; 5000; 5500; 6000; 7000] [1; 1; 1; 1; 1]
           5000 6000 4000 7000 10 0);
    try reflexivity; try extremum; try lra.
  - unfold Spec.sticks_out. lra.
  - rewrite flat_numerator, flat_ST_denominator. lra.
Defined.



(** X9.  When the overlap check passes, [apmag] with system ['ST'] returns
    [-2.5*log10(T(f*R(w)*w) / T(R(w)*w)) + (-21.10)], both integrals by the
    trapezoidal rule over the overlap grid; the zero point [mzero] plays no
    part and the spectrum is as it was. *)
Theorem apmag_ST_formula (W : World) (band : BandPass.t) (s : StarSpectrum.t)
        (f : Scipy.interp1d_t) (wb ws fl : list R) (lo hi slo shi mzero : R) :
  BandPass.wavelength band = Some wb ->
  BandPass.interpolated_response band = Some f ->
  Scipy.bounds_error f = false ->
  StarSpectrum.wavelength s = Some ws ->
  StarSpectrum.flux s = Some fl ->
  List.length fl = List.length ws ->
  Spec.is_min lo wb -> Spec.is_max hi wb ->
  Spec.is_min slo ws -> Spec.is_max shi ws ->
  ~ Spec.sticks_out lo hi slo shi ->
  let g := Spec.grid lo hi ws fl in
  let Rb := Scipy.value_at (kernel W) f in
  StarSpectrum.apmag W band "ST" mzero s
  = mk_outcome
      (Ok (-2.5 * Np.log10 (Spec.T (fun w fx => fx * Rb w * w) g
                            / Spec.T (fun w _ => Rb w * w) g)
           + -21.10))
      s [].
Proof.
  intros Hwb Hf Hbe Hws Hfl Hlen Hlo Hhi Hslo Hshi Hin g Rb.
  unfold StarSpectrum.apmag, reads. f_equal.
  rewrite (prologue band s wb ws fl lo hi slo shi _ Hwb Hws Hfl Hlen Hlo Hhi Hslo Hshi Hin).
  fold g. simpl (String.eqb "ST" _). cbv iota.
  rewrite (band_flux_map W band f fst snd g Hf Hbe). cbn [rbind].
  rewrite (call_map W band f fst g Hf Hbe). cbn [rbind].
  rewrite (mul_map (fun p => Scipy.value_at (kernel W) f (fst p)) fst g). cbn [rbind].
  rewrite (trapz_map fst (fun p => Scipy.value_at (kernel W) f (fst p) * fst p) g).
  cbn [rbind]. reflexivity.
Qed.

Lemma apmag_ST_formula_witness :
  StarSpectrum.apmag Demo.world Demo.flat_band "ST" 0 Demo.flat_star
  = mk_outcome (Ok (-2.5 * Np.log10 (5500000 / 5500000) + -21.10)) Demo.flat_star [].
Proof.
  rewrite <- flat_numerator at 1. rewrite <- flat_ST_denominator.
  apply (apmag_ST_formula Demo.world Demo.flat_band Demo.flat_star
           (Scipy.mk_interp1d [5000; 6000] [1; 1] "slinear" false 0)
           [5000; 6000] [4000; 5000; 5500; 6000; 7000] [1; 1; 1; 1; 1]
           5000 6000 4000 7000 0);
    try reflexivity; try extremum.
  unfold Spec.sticks_out. lra.
Defined.

(** ** The overlap check at its edges *)

(** X10.  The check on degenerate input: an empty bandpass array, or an
    empty spectrum array against a bandpass that holds wavelengths, raises
    numpy's zero-size [ValueError]; a bandpass or a spectrum whose
    wavelengths are still [None], the other not being empty, raises
    [TypeError]; in neither case is the overlap error raised or an index
    array returned. *)
Theorem waverange_degenerate (wb ws : option (list R)) :
  (wb = Some [] ->
   StarSpectrum._waverange wb ws = Raise (Np.zero_size "maximum"))
  /\ (forall b0 wb', wb = Some (b0 :: wb') -> ws = Some [] ->
      StarSpectrum._waverange wb ws = Raise (Np.zero_size "maximum"))
  /\ (wb <> Some [] -> ws <> Some [] -> wb = None \/ ws = None ->
      exists msg, StarSpectrum._waverange wb ws = Raise (TypeError msg)).
Proof.
  split; [|split].
  - intros ->. reflexivity.
  - intros b0 wb' -> ->. reflexivity.
  - intros Hwb Hws Hnone. unfold StarSpectrum._waverange.
    destruct wb as [[|x xs]|]; [contradiction | |];
      destruct ws as [[|y ys]|]; try contradiction; cbn [Np.max Np.min rbind Np.lt];
      try (eexists; reflexivity).
    destruct Hnone; discriminate.
Qed.

Lemma where_from_spec (n : nat) (mask : list bool) :
  StronglySorted lt (Np.where_from n mask)
  /\ forall i, In i (Np.where_from n mask)
               <-> (n <= i)%nat /\ nth_error mask (i - n) = Some true.
Proof.
  revert n. induction mask as [|b mask IH]; intros n; cbn [Np.where_from].
  - split; [constructor|]. intros i. split; [intros []|].
    intros [_ H]. destruct (i - n)%nat; discriminate.
  - destruct (IH (S n)) as [Hsort Hin].
    assert (Htail : forall i, In i (Np.where_from (S n) mask)
                              <-> (n < i)%nat /\ nth_error (b :: mask) (i - n) = Some true).
    { intros i. rewrite Hin. split.
      - intros [Hle Hi]. split; [lia|].
        replace (i - n)%nat with (S (i - S n)) by lia. exact Hi.
      - intros [Hlt Hi]. split; [lia|].
        replace (i - n)%nat with (S (i - S n)) in Hi by lia. exact Hi. }
    destruct b.
    + split.
      * constructor; [exact Hsort|]. apply Forall_forall. intros i Hi.
        apply Htail in Hi. lia.
      * intros i. cbn [In]. rewrite Htail. split.
        -- intros [<- | [Hlt Hi]]; [rewrite Nat.sub_diag; split; [lia | reflexivity]|].
           split; [lia | exact Hi].
        -- intros [Hle Hi]. destruct (Nat.eq_dec n i) as [->|Hne]; [left; reflexivity|].
           right. split; [lia | exact Hi].
    + split; [exact Hsort|]. intros i. rewrite Htail. split.
      * intros [Hlt Hi]. split; [lia | exact Hi].
      * intros [Hle Hi]. destruct (Nat.eq_dec n i) as [->|Hne].
        -- rewrite Nat.sub_diag in Hi. discriminate.
        -- split; [lia | exact Hi].
Qed.

(** X11.  What a passing check returns: the positions, strictly
    increasing, of exactly those spectrum samples whose wavelength lies
    between the least and the greatest bandpass wavelength, both
    included. *)
Theorem waverange_indices (wb ws : list R) (r : list nat) :
  StarSpectrum._waverange (Some wb) (Some ws) = Ok r ->
  exists lo hi,
    Spec.is_min lo wb /\ Spec.is_max hi wb
    /\ StronglySorted lt r
    /\ forall i, In i r <-> exists w, nth_error ws i = Some w /\ lo <= w <= hi.
Proof.
  intros Hr.
  destruct wb as [|b wb']; [discriminate|].
  destruct ws as [|x ws']; [discriminate|].
  set (lo := fold_left Rmin wb' b). set (hi := fold_left Rmax wb' b).
  set (slo := fold_left Rmin ws' x). set (shi := fold_left Rmax ws' x).
  assert (Hlo : Spec.is_min lo (b :: wb')).
  { split; [apply fold_min_in|]. destruct (fold_min_le wb' b) as [H1 H2].
    intros v [<- | Hv]; auto. }
  assert (Hhi : Spec.is_max hi (b :: wb')).
  { split; [apply fold_max_in|]. destruct (fold_max_ge wb' b) as [H1 H2].
    intros v [<- | Hv]; auto. }
  assert (Hslo : Spec.is_min slo (x :: ws')).
  { split; [apply fold_min_in|]. destruct (fold_min_le ws' x) as [H1 H2].
    intros v [<- | Hv]; auto. }
  assert (Hshi : Spec.is_max shi (x :: ws')).
  { split; [apply fold_max_in|]. destruct (fold_max_ge ws' x) as [H1 H2].
    intros v [<- | Hv]; auto. }
  rewrite (waverange_eq _ _ lo hi slo shi Hlo Hhi Hslo Hshi) in Hr.
  destruct ((lo <? slo) || (shi <? hi)); [discriminate|]. injection Hr as <-.
  exists lo, hi. split; [exact Hlo|]. split; [exact Hhi|].
  unfold Np.where_.
  destruct (where_from_spec 0 (map (fun w => (w <=? hi) && (lo <=? w)) (x :: ws')))
    as [Hsort Hin].
  split; [exact Hsort|]. intros i. rewrite Hin, Nat.sub_0_r, nth_error_map.
  split.
  - intros [_ Hi]. destruct (nth_error (x :: ws') i) as [w|]; [|discriminate].
    cbn [option_map] in Hi. injection Hi as Hi. apply andb_true_iff in Hi.
    destruct Hi as [H1 H2]. apply Rleb_true_iff in H1, H2. exists w. auto.
  - intros (w & -> & H1 & H2). split; [lia|]. cbn [option_map]. f_equal.
    apply andb_true_iff. split; apply Rleb_true_iff; assumption.
Qed.

Lemma waverange_indices_witness :
  exists lo hi,
    Spec.is_min lo [5000; 6000] /\ Spec.is_max hi [5000; 6000]
    /\ StronglySorted lt [1%nat; 2%nat; 3%nat]
    /\ forall i, In i [1%nat; 2%nat; 3%nat]
                 <-> exists w, nth_error [4000; 5000; 5500; 6000; 7000] i = Some w
                               /\ lo <= w <= hi.
Proof.
  apply (waverange_indices [5000; 6000] [4000; 5000; 5500; 6000; 7000]
                           [1%nat; 2%nat; 3%nat]).
  exact flat_waverange.
Defined.

(** ** Building a bandpass, continued *)

Lemma smooth_ok (W : World) (kind : string) (b : BandPass.t) (xs ys : list R) :
  BandPass.wavelength b = Some xs -> BandPass.response b = Some ys ->
  reject W kind xs ys = None ->
  BandPass.smooth W kind b
  = mk_outcome (Ok tt)
               (BandPass.mk (Some xs) (BandPass.flux b) (BandPass.name b)
                            (Some (Scipy.mk_interp1d xs ys kind false 0))
                            (BandPass._smt b) (Some ys))
               [].
Proof.
  intros Hx Hy Hok. unfold BandPass.smooth, mbind, reads, assign.
  cbn [value self warned]. rewrite Hy, Hx. unfold Scipy.interp1d. rewrite Hok.
  reflexivity.
Qed.

Lemma mbind_ok {S A B : Type} (m : Meth S A) (k : A -> Meth S B) (s s' : S) (a : A)
      (w : list string) :
  m s = mk_outcome (Ok a) s' w ->
  mbind m k s
  = mk_outcome (value (k a s')) (self (k a s')) (w ++ warned (k a s')).
Proof. intros H. unfold mbind. rewrite H. reflexivity. Qed.

Lemma mbind_raise {S A B : Type} (m : Meth S A) (k : A -> Meth S B) (s s' : S) (e : exn)
      (w : list string) :
  m s = mk_outcome (Raise e) s' w ->
  mbind m k s = mk_outcome (Raise e) s' w.
Proof. intros H. unfold mbind. rewrite H. reflexivity. Qed.

Lemma load_and_smooth_ok (W : World) (path smt : string) (data : ndarray)
      (c0 c1 : list R) :
  loadtxt W path = Ok data -> column data 0 = Ok c0 -> column data 1 = Ok c1 ->
  existsb (String.eqb smt) BandPass.smoothings = true ->
  reject W smt c0 c1 = None ->
  BandPass.load_and_smooth W path (unloaded smt)
  = mk_outcome (Ok tt)
               (BandPass.mk (Some c0) None (Some (stem W path))
                            (Some (Scipy.mk_interp1d c0 c1 smt false 0)) smt (Some c1))
               [].
Proof.
  intros Hdata H0 H1 Hkind Hok. unfold BandPass.load_and_smooth.
  rewrite (mbind_ok _ _ _ _ _ _ (loadascii_ok W path data c0 c1 _ Hdata H0 H1)).
  cbn [unloaded BandPass.flux BandPass.interpolated_response BandPass._smt].
  cbv beta.
  rewrite (mbind_ok (reads (fun b : BandPass.t => Ok (BandPass._smt b))) _
             (BandPass.mk (Some c0) None (Some (stem W path)) None smt (Some c1))
             (BandPass.mk (Some c0) None (Some (stem W path)) None smt (Some c1))
             smt [] eq_refl).
  rewrite Hkind.
  rewrite (smooth_ok W smt
             (BandPass.mk (Some c0) None (Some (stem W path)) None smt (Some c1))
             c0 c1 eq_refl eq_refl Hok).
  reflexivity.
Qed.

Lemma new_found (W : World) (b path smt : string) :
  b <> "" ->
  lookup b (listfilters W) = Some path
  \/ (lookup b (listfilters W) = None /\ file_exists W b = true /\ path = b) ->
  BandPass.new W (Some b) smt = BandPass.load_and_smooth W path (unloaded smt).
Proof.
  intros Hb Hfound. unfold BandPass.new, BandPass.__init__.
  rewrite (mbind_ok (assign _) _ BandPass.blank (unloaded smt) tt [] eq_refl).
  cbv beta. unfold BandPass.truthy.
  destruct (String.eqb_spec b "") as [->|_]; [contradiction|].
  cbn [negb app]. destruct Hfound as [-> | (-> & -> & ->)].
  - destruct (BandPass.load_and_smooth W path (unloaded smt)) as [v s w]. reflexivity.
  - destruct (BandPass.load_and_smooth W b (unloaded smt)) as [v s w]. reflexivity.
Qed.

(** X12.  A band that names a filter of the library, or else an existing
    file, with a smoothing kind of the enumerated set, a file that loads as
    a table of two columns and samples scipy accepts: the constructor
    returns, without warning, an object holding the first column as
    wavelengths, the second as response, the file's stem as name and an
    interpolant of that kind over those samples that fills with 0 outside
    them.  The library is asked first: a band it knows is loaded from the
    library's path, whether or not a file of that name exists. *)
Theorem bandpass_constructed (W : World) (b path smt : string) (data : ndarray)
        (c0 c1 : list R) :
  b <> "" ->
  lookup b (listfilters W) = Some path
  \/ (lookup b (listfilters W) = None /\ file_exists W b = true /\ path = b) ->
  loadtxt W path = Ok data -> column data 0 = Ok c0 -> column data 1 = Ok c1 ->
  existsb (String.eqb smt) BandPass.smoothings = true ->
  reject W smt c0 c1 = None ->
  BandPass.new W (Some b) smt
  = mk_outcome (Ok tt)
               (BandPass.mk (Some c0) None (Some (stem W path))
                            (Some (Scipy.mk_interp1d c0 c1 smt false 0)) smt (Some c1))
               [].
Proof.
  intros Hb Hfound Hdata H0 H1 Hkind Hok.
  rewrite (new_found W b path smt Hb Hfound).
  apply (load_and_smooth_ok W path smt data c0 c1 Hdata H0 H1 Hkind Hok).
Qed.

Lemma bandpass_constructed_witness :
  BandPass.new Demo.world (Some "V") "linear"
  = mk_outcome (Ok tt)
               (BandPass.mk (Some [5000; 5500; 6000]) None (Some "V")
                            (Some (Scipy.mk_interp1d [5000; 5500; 6000] [0; 1; 0]
                                                     "linear" false 0))
                            "linear" (Some [0; 1; 0]))
               [].
Proof.
  apply (bandpass_constructed Demo.world "V" Demo.V_path "linear" Demo.V_dat
           [5000; 5500; 6000] [0; 1; 0]);
    try reflexivity; [discriminate | left; reflexivity].
Defined.

Lemma loadascii_raises (W : World) (path : string) (b : BandPass.t) (e : exn) :
  loadtxt W path = Raise e
  \/ (exists data, loadtxt W path = Ok data /\ column data 0 = Raise e)
  \/ (exists data c0, loadtxt W path = Ok data /\ column data 0 = Ok c0
                      /\ column data 1 = Raise e) ->
  value (BandPass.loadascii W path b) = Raise e.
Proof.
  unfold BandPass.loadascii, mbind, reads, assign. cbn [value self warned].
  intros [H | [(data & H & H0) | (data & c0 & H & H0 & H1)]]; rewrite H;
    cbn [value self warned]; try reflexivity; rewrite H0; cbn [value self warned];
    try reflexivity.
  rewrite H1. reflexivity.
Qed.

(** X13.  Trouble with the file comes before the smoothing kind: when the
    band is found but its file cannot be read, or holds a single column,
    the constructor raises that error, whether the kind is one of the
    enumerated set or not. *)
Theorem bandpass_file_errors_first (W : World) (b path smt : string) :
  b <> "" ->
  lookup b (listfilters W) = Some path
  \/ (lookup b (listfilters W) = None /\ file_exists W b = true /\ path = b) ->
  (forall e, loadtxt W path = Raise e ->
             value (BandPass.new W (Some b) smt) = Raise e)
  /\ (forall v, loadtxt W path = Ok (Vector v) ->
                value (BandPass.new W (Some b) smt)
                = Raise (IndexError "too many indices for array")).
Proof.
  intros Hb Hfound. rewrite (new_found W b path smt Hb Hfound).
  unfold BandPass.load_and_smooth. split.
  - intros e He. unfold mbind at 1.
    rewrite (loadascii_raises W path (unloaded smt) e (or_introl He)). reflexivity.
  - intros v Hv. unfold mbind at 1.
    rewrite (loadascii_raises W path (unloaded smt)
               (IndexError "too many indices for array")); [reflexivity|].
    right. left. exists (Vector v). split; [exact Hv | reflexivity].
Qed.

Lemma bandpass_file_errors_first_witness :
  value (BandPass.new DemoDisk.world (Some "flux.dat") "spline")
  = Raise (IndexError "too many indices for array").
Proof.
  destruct (bandpass_file_errors_first DemoDisk.world "flux.dat" "flux.dat" "spline")
    as [_ Hvector];
    [discriminate | right; repeat split; reflexivity |].
  apply (Hvector [1; 1; 1]). reflexivity.
Defined.

Lemma value_at_inside (W : World) (f : Scipy.interp1d_t) (lo hi w : R) :
  Spec.is_min lo (Scipy.x f) -> Spec.is_max hi (Scipy.x f) ->
  lo <= w <= hi ->
  Scipy.value_at (kernel W) f w = kernel W (Scipy.kind f) (Scipy.x f) (Scipy.y f) w.
Proof.
  intros Hlo Hhi [H1 H2]. unfold Scipy.value_at, Scipy.below_bounds, Scipy.above_bounds.
  rewrite (x_first_is_min f lo Hlo), (x_last_is_max f hi Hhi).
  rewrite (proj2 (Rltb_false_iff w lo) H1), (proj2 (Rltb_false_iff hi w) H2).
  reflexivity.
Qed.

(** X14.  Inside its range, ends included, a constructed bandpass answers
    with the interpolation of its own samples by its own kind: nothing is
    zeroed at [min(wavelength)] or [max(wavelength)] themselves. *)
Theorem bandpass_inside_range (W : World) (b path smt : string) (data : ndarray)
        (c0 c1 : list R) (lo hi w : R) :
  b <> "" ->
  lookup b (listfilters W) = Some path
  \/ (lookup b (listfilters W) = None /\ file_exists W b = true /\ path = b) ->
  loadtxt W path = Ok data -> column data 0 = Ok c0 -> column data 1 = Ok c1 ->
  existsb (String.eqb smt) BandPass.smoothings = true ->
  reject W smt c0 c1 = None ->
  Spec.is_min lo c0 -> Spec.is_max hi c0 ->
  lo <= w <= hi ->
  BandPass.__call__ W (self (BandPass.new W (Some b) smt)) [w]
  = Ok [kernel W smt c0 c1 w].
Proof.
  intros Hb Hfound Hdata H0 H1 Hkind Hok Hlo Hhi Hw.
  rewrite (new_found W b path smt Hb Hfound).
  rewrite (load_and_smooth_ok W path smt data c0 c1 Hdata H0 H1 Hkind Hok).
  cbn [self]. unfold BandPass.__call__, Scipy.call.
  cbn [BandPass.interpolated_response Scipy.bounds_error andb map].
  rewrite (value_at_inside W (Scipy.mk_interp1d c0 c1 smt false 0) lo hi w Hlo Hhi Hw).
  reflexivity.
Qed.

Lemma bandpass_inside_range_witness :
  BandPass.__call__ Demo.world (self (BandPass.new Demo.world (Some "V") "linear")) [5000]
  = Ok [kernel Demo.world "linear" [5000; 5500; 6000] [0; 1; 0] 5000].
Proof.
  apply (bandpass_inside_range Demo.world "V" Demo.V_path "linear" Demo.V_dat
           [5000; 5500; 6000] [0; 1; 0] 5000 6000 5000);
    try reflexivity; try extremum; try lra; [discriminate | left; reflexivity].
Defined.

Lemma new_unfound (W : World) (b smt : string) :
  b <> "" -> lookup b (listfilters W) = None -> file_exists W b = false ->
  self (BandPass.new W (Some b) smt) = unloaded smt.
Proof.
  intros Hb Hlib Hfile. unfold BandPass.new, BandPass.__init__.
  unfold mbind at 1. unfold assign at 1. cbn [value self warned].
  unfold BandPass.truthy. destruct (String.eqb_spec b "") as [->|_]; [contradiction|].
  cbn [negb]. rewrite Hlib, Hfile. reflexivity.
Qed.

(** X15.  A bandpass whose filter or file was not found is of no use: with
    a spectrum holding wavelengths, [apmag] under every system and
    [extinction] under every law raise [TypeError]. *)
Theorem unfound_band_unusable (W : World) (b smt : string) (s : StarSpectrum.t)
        (w0 : R) (ws : list R) :
  b <> "" -> lookup b (listfilters W) = None -> file_exists W b = false ->
  StarSpectrum.wavelength s = Some (w0 :: ws) ->
  let band := self (BandPass.new W (Some b) smt) in
  (forall mag mzero, exists msg,
      value (StarSpectrum.apmag W band mag mzero s) = Raise (TypeError msg))
  /\ (forall law kw, exists msg,
         value (StarSpectrum.extinction W band law kw s) = Raise (TypeError msg)).
Proof.
  intros Hb Hlib Hfile Hws band. unfold band.
  rewrite (new_unfound W b smt Hb Hlib Hfile).
  split; intros; eexists;
    unfold StarSpectrum.apmag, StarSpectrum.extinction, reads; cbn [value];
    rewrite Hws; reflexivity.
Qed.

Lemma unfound_band_unusable_witness :
  exists msg,
    value (StarSpectrum.apmag Demo.world (self (BandPass.new Demo.world (Some "Z") "linear"))
                              "AB" 0 Demo.flat_star)
    = Raise (TypeError msg).
Proof.
  apply (unfound_band_unusable Demo.world "Z" "linear" Demo.flat_star
           4000 [5000; 5500; 6000; 7000]); try reflexivity.
  discriminate.
Defined.

(** ** Loading a spectrum *)

Lemma star_init_start (W : World) (D : Disk) (file : option string) :
  GeneralSpectrum.new W D file
  = let o :=
      match file with
      | Some path =>
          if BandPass.truthy file then
            if file_exists W path then
              if String.eqb (extension D path) ".fits"
                 || String.eqb (extension D path) ".FITS"
              then GeneralSpectrum.loadfits D path "Wavelength" "Flux"
              else GeneralSpectrum.loadascii W path
            else warn ("Warning: Could not find file " ++ path
                       ++ " - no spectrum loaded")%string
          else ret tt
      | None => ret tt
      end (StarSpectrum.mk None None file) in
    mk_outcome (value o) (self o) (warned o).
Proof.
  unfold GeneralSpectrum.new, GeneralSpectrum.__init__.
  rewrite (mbind_ok (assign _) _ GeneralSpectrum.blank
             (StarSpectrum.mk None None file) tt [] eq_refl).
  reflexivity.
Qed.

(** X16.  [StarSpectrum()] without a file, or with an empty name, is an
    unloaded object; with the name of a file that is not there it is an
    unloaded object and one warning: the constructor does not raise. *)
Theorem star_without_file (W : World) (D : Disk) (file : option string) :
  (file = None \/ file = Some "" ->
   GeneralSpectrum.new W D file
   = mk_outcome (Ok tt) (StarSpectrum.mk None None file) [])
  /\ (forall path, file = Some path -> path <> "" -> file_exists W path = false ->
      GeneralSpectrum.new W D file
      = mk_outcome (Ok tt) (StarSpectrum.mk None None file)
                   [("Warning: Could not find file " ++ path
                     ++ " - no spectrum loaded")%string]).
Proof.
  split.
  - intros [-> | ->]; reflexivity.
  - intros path -> Hpath Hfile. rewrite star_init_start. cbv zeta.
    unfold BandPass.truthy. destruct (String.eqb_spec path "") as [->|_]; [contradiction|].
    cbn [negb]. rewrite Hfile. reflexivity.
Qed.

Lemma star_without_file_witness :
  GeneralSpectrum.new DemoDisk.world DemoDisk.disk (Some "nowhere.dat")
  = mk_outcome (Ok tt) (StarSpectrum.mk None None (Some "nowhere.dat"))
               ["Warning: Could not find file nowhere.dat - no spectrum loaded"].
Proof.
  destruct (star_without_file DemoDisk.world DemoDisk.disk (Some "nowhere.dat"))
    as [_ Hmissing].
  apply (Hmissing "nowhere.dat"); [reflexivity | discriminate | reflexivity].
Defined.

Lemma star_init_ascii (W : World) (D : Disk) (path : string) :
  path <> "" -> file_exists W path = true ->
  String.eqb (extension D path) ".fits" || String.eqb (extension D path) ".FITS" = false ->
  GeneralSpectrum.new W D (Some path)
  = GeneralSpectrum.loadascii W path (StarSpectrum.mk None None (Some path)).
Proof.
  intros Hpath Hfile Hext. rewrite star_init_start. cbv zeta.
  unfold BandPass.truthy. destruct (String.eqb_spec path "") as [->|_]; [contradiction|].
  cbn [negb]. rewrite Hfile, Hext.
  destruct (GeneralSpectrum.loadascii W path _) as [v s w]. reflexivity.
Qed.

Lemma star_init_fits (W : World) (D : Disk) (path : string) :
  path <> "" -> file_exists W path = true ->
  String.eqb (extension D path) ".fits" || String.eqb (extension D path) ".FITS" = true ->
  GeneralSpectrum.new W D (Some path)
  = GeneralSpectrum.loadfits D path "Wavelength" "Flux"
                             (StarSpectrum.mk None None (Some path)).
Proof.
  intros Hpath Hfile Hext. rewrite star_init_start. cbv zeta.
  unfold BandPass.truthy. destruct (String.eqb_spec path "") as [->|_]; [contradiction|].
  cbn [negb]. rewrite Hfile, Hext.
  destruct (GeneralSpectrum.loadfits D path _ _ _) as [v s w]. reflexivity.
Qed.

(** X17.  A spectrum read from a one-column text file has a flux and no
    wavelengths, and cannot be measured: through any bandpass holding
    wavelengths, [apmag] and [extinction] raise [TypeError]. *)
Theorem star_from_one_column (W : World) (D : Disk) (path : string) (v : list R)
        (band : BandPass.t) (b0 : R) (wb : list R) :
  path <> "" -> file_exists W path = true ->
  String.eqb (extension D path) ".fits" || String.eqb (extension D path) ".FITS" = false ->
  loadtxt W path = Ok (Vector v) ->
  BandPass.wavelength band = Some (b0 :: wb) ->
  GeneralSpectrum.new W D (Some path)
  = mk_outcome (Ok tt) (StarSpectrum.mk None (Some v) (Some path)) []
  /\ (forall mag mzero, exists msg,
         value (StarSpectrum.apmag W band mag mzero
                                   (self (GeneralSpectrum.new W D (Some path))))
         = Raise (TypeError msg))
  /\ (forall law kw, exists msg,
         value (StarSpectrum.extinction W band law kw
                                        (self (GeneralSpectrum.new W D (Some path))))
         = Raise (TypeError msg)).
Proof.
  intros Hpath Hfile Hext Hdata Hwb.
  assert (Hnew : GeneralSpectrum.new W D (Some path)
                 = mk_outcome (Ok tt) (StarSpectrum.mk None (Some v) (Some path)) []).
  { rewrite (star_init_ascii W D path Hpath Hfile Hext).
    unfold GeneralSpectrum.loadascii.
    rewrite (mbind_ok (reads (fun _ => loadtxt W path)) _
               (StarSpectrum.mk None None (Some path))
               (StarSpectrum.mk None None (Some path)) (Vector v) []);
      [reflexivity|].
    unfold reads. rewrite Hdata. reflexivity. }
  split; [exact Hnew|]. rewrite Hnew. cbn [self].
  split; intros; eexists;
    unfold StarSpectrum.apmag, StarSpectrum.extinction, reads; cbn [value];
    rewrite Hwb; reflexivity.
Qed.

Lemma star_from_one_column_witness :
  GeneralSpectrum.new DemoDisk.world DemoDisk.disk (Some "flux.dat")
  = mk_outcome (Ok tt) (StarSpectrum.mk None (Some [1; 1; 1]) (Some "flux.dat")) [].
Proof.
  apply (star_from_one_column DemoDisk.world DemoDisk.disk "flux.dat" [1; 1; 1]
           Demo.flat_band 5000 [6000]); try reflexivity.
  discriminate.
Defined.

(** X18.  A spectrum read from a two-column text file holds the first
    column as wavelengths and the second as flux; one read from a file
    whose extension is [.fits] or [.FITS] holds the two columns [Vega]
    reads from that file. *)
Theorem star_loaded (W : World) (D : Disk) (path : string) :
  path <> "" -> file_exists W path = true ->
  (String.eqb (extension D path) ".fits" || String.eqb (extension D path) ".FITS" = false ->
   forall data c0 c1,
     loadtxt W path = Ok data -> column data 0 = Ok c0 -> column data 1 = Ok c1 ->
     GeneralSpectrum.new W D (Some path)
     = mk_outcome (Ok tt) (StarSpectrum.mk (Some c0) (Some c1) (Some path)) [])
  /\ (String.eqb (extension D path) ".fits" || String.eqb (extension D path) ".FITS" = true ->
      forall w f,
        GeneralSpectrum.Vega D path = Ok (w, f) ->
        GeneralSpectrum.new W D (Some path)
        = mk_outcome (Ok tt) (StarSpectrum.mk (Some w) (Some f) (Some path)) []).
Proof.
  intros Hpath Hfile. split; intros Hext.
  - intros data c0 c1 Hdata H0 H1.
    rewrite (star_init_ascii W D path Hpath Hfile Hext).
    unfold GeneralSpectrum.loadascii.
    rewrite (mbind_ok (reads (fun _ => loadtxt W path)) _
               (StarSpectrum.mk None None (Some path))
               (StarSpectrum.mk None None (Some path)) data [])
      by (unfold reads; rewrite Hdata; reflexivity).
    destruct data as [cols|v]; [|discriminate].
    unfold mbind, reads, assign. cbn [value self warned]. rewrite H0.
    cbn [value self warned StarSpectrum.wavelength StarSpectrum.flux StarSpectrum._file].
    rewrite H1. reflexivity.
  - intros w f HVega. unfold GeneralSpectrum.Vega in HVega.
    destruct (fits_field D path "Wavelength") as [w'|e] eqn:Hw; cbn [rbind] in HVega;
      [|discriminate].
    destruct (fits_field D path "Flux") as [f'|e] eqn:Hf; cbn [rbind] in HVega;
      [|discriminate].
    injection HVega as -> ->.
    rewrite (star_init_fits W D path Hpath Hfile Hext).
    unfold GeneralSpectrum.loadfits, mbind, reads, assign. cbn [value self warned].
    rewrite Hw. cbn [value self warned StarSpectrum.wavelength StarSpectrum.flux
                     StarSpectrum._file].
    rewrite Hf. reflexivity.
Qed.

Lemma star_loaded_witness :
  GeneralSpectrum.new DemoDisk.world DemoDisk.disk (Some "star.dat")
  = mk_outcome (Ok tt)
               (StarSpectrum.mk (Some [4000; 5000; 5500; 6000; 7000])
                                (Some [1; 1; 1; 1; 1]) (Some "star.dat")) []
  /\ GeneralSpectrum.new DemoDisk.world DemoDisk.disk (Some "vega.fits")
     = mk_outcome (Ok tt)
                  (StarSpectrum.mk (Some [1000; 5000; 5500; 6000; 10000])
                                   (Some [3; 2; 2; 2; 1]) (Some "vega.fits")) [].
Proof.
  split.
  - destruct (star_loaded DemoDisk.world DemoDisk.disk "star.dat") as [Hascii _];
      [discriminate | reflexivity |].
    apply (Hascii eq_refl (Table [[4000; 5000; 5500; 6000; 7000]; [1; 1; 1; 1; 1]]));
      reflexivity.
  - destruct (star_loaded DemoDisk.world DemoDisk.disk "vega.fits") as [_ Hfits];
      [discriminate | reflexivity |].
    apply (Hfits eq_refl). reflexivity.
Defined.

(** ** The scan of the filter library *)

Lemma lookup_setitem_same {V : Type} (key : string) (v : V) (d : dict V) :
  lookup key (setitem key v d) = Some v.
Proof.
  induction d as [|[k v'] d IH]; cbn [setitem lookup].
  - rewrite String.eqb_refl. reflexivity.
  - destruct (String.eqb k key) eqn:Hk; cbn [lookup]; rewrite Hk; auto.
Qed.

Lemma lookup_setitem_other {V : Type} (key key' : string) (v : V) (d : dict V) :
  key' <> key -> lookup key' (setitem key v d) = lookup key' d.
Proof.
  intros Hne. induction d as [|[k v'] d IH]; cbn [setitem lookup].
  - destruct (String.eqb_spec key key') as [->|_]; [contradiction | reflexivity].
  - destruct (String.eqb_spec k key) as [->|Hk]; cbn [lookup].
    + destruct (String.eqb_spec key key') as [->|_]; [contradiction | reflexivity].
    + rewrite IH. reflexivity.
Qed.

Lemma lookup_app {V : Type} (key : string) (d d' : dict V) :
  lookup key (d ++ d')
  = match lookup key d with Some v => Some v | None => lookup key d' end.
Proof.
  induction d as [|[k v] d IH]; cbn [app lookup]; [reflexivity|].
  destruct (String.eqb k key); auto.
Qed.

Lemma lookup_setitems {V : Type} (key : string) (bs : list (string * V)) (d : dict V) :
  lookup key (setitems bs d)
  = match last_binding key bs with Some v => Some v | None => lookup key d end.
Proof.
  unfold setitems, last_binding. revert d.
  induction bs as [|[k v] bs IH]; intros d; cbn [fold_left rev fst snd];
    [reflexivity|].
  rewrite IH, lookup_app. destruct (lookup key (rev bs)); [reflexivity|].
  cbn [lookup]. destruct (String.eqb_spec k key) as [->|Hk].
  - apply lookup_setitem_same.
  - apply lookup_setitem_other. congruence.
Qed.

Lemma setitems_app {V : Type} (bs bs' : list (string * V)) (d : dict V) :
  setitems (bs ++ bs') d = setitems bs' (setitems bs d).
Proof. unfold setitems. apply fold_left_app. Qed.

Lemma scan_files_eq (D : Disk) (root : string) (files : list string) (lf : dict string) :
  Library.scan_files D root files lf
  = (setitems (map (fun name => (rootname D name, join D root name)) files) lf,
     map (rootname D) files).
Proof.
  unfold Library.scan_files.
  assert (H : forall acc : dict string * list string,
             fold_left
               (fun (acc : dict string * list string) (name : string) =>
                  let key := rootname D name in
                  (setitem key (join D root name) (fst acc), snd acc ++ [key]))
               files acc
             = (setitems (map (fun name => (rootname D name, join D root name)) files)
                         (fst acc),
                snd acc ++ map (rootname D) files)).
  { induction files as [|name files IH]; intros [lf' f]; cbn [fold_left map fst snd].
    - rewrite app_nil_r. reflexivity.
    - rewrite IH. cbn [fst snd]. rewrite <- app_assoc. reflexivity. }
  rewrite H. reflexivity.
Qed.

Lemma listfiles_eq (D : Disk) (dirname : string) (lib : Library.t) :
  Library._listfiles D dirname lib
  = Library.mk (setitems (file_bindings D dirname) (Library.listfilters lib))
               (setitems (directory_bindings D dirname) (Library.showfilters lib)).
Proof.
  unfold Library._listfiles, file_bindings, directory_bindings.
  revert lib. induction (walk D dirname) as [|[root files] entries IH]; intros lib.
  - destruct lib. reflexivity.
  - cbn [fold_left flat_map fst snd]. rewrite IH, !setitems_app.
    assert (Hstep : Library.scan_directory D lib (root, files)
                    = Library.mk
                        (setitems (map (fun name => (rootname D name, join D root name))
                                       files)
                                  (Library.listfilters lib))
                        (setitems match files with
                                  | [] => []
                                  | _ :: _ => [(basename D root, map (rootname D) files)]
                                  end
                                  (Library.showfilters lib))).
    { unfold Library.scan_directory. rewrite scan_files_eq.
      destruct files as [|name files]; reflexivity. }
    rewrite Hstep. reflexivity.
Qed.

Lemma last_binding_in {V : Type} (key : string) (bs : list (string * V)) :
  In key (map fst bs) -> exists v, last_binding key bs = Some v /\ In (key, v) bs.
Proof.
  unfold last_binding. intros Hin.
  assert (Hlook : forall d : dict V, In key (map fst d) ->
                    exists v, lookup key d = Some v /\ In (key, v) d).
  { induction d as [|[k v] d IH]; [intros []|]. cbn [map fst In lookup].
    destruct (String.eqb_spec k key) as [->|Hk].
    - intros _. exists v. auto.
    - intros [H | H]; [contradiction|]. destruct (IH H) as (v' & Hv & Hin').
      exists v'. auto. }
  destruct (Hlook (rev bs)) as (v & Hv & Hinv).
  - rewrite map_rev. apply in_rev. rewrite rev_involutive. exact Hin.
  - exists v. split; [exact Hv|]. apply in_rev. exact Hinv.
Qed.

(** X19.  After [_listfiles], a filter name stands for the file walked
    last among those with that stem, and a name the walk did not meet keeps
    the path it had; every file of the walk is reachable under its stem,
    through a path the walk produced.  [showfilters] is filled the same
    way, by directory name, from the directories that hold files. *)
Theorem listfiles_lookup (D : Disk) (dirname : string) (lib : Library.t) :
  (forall key,
      lookup key (Library.listfilters (Library._listfiles D dirname lib))
      = match last_binding key (file_bindings D dirname) with
        | Some path => Some path
        | None => lookup key (Library.listfilters lib)
        end)
  /\ (forall key,
         lookup key (Library.showfilters (Library._listfiles D dirname lib))
         = match last_binding key (directory_bindings D dirname) with
           | Some names => Some names
           | None => lookup key (Library.showfilters lib)
           end)
  /\ (forall root files name,
         In (root, files) (walk D dirname) -> In name files ->
         exists root' name',
           lookup (rootname D name) (Library.listfilters (Library._listfiles D dirname lib))
           = Some (join D root' name')
           /\ rootname D name' = rootname D name).
Proof.
  rewrite listfiles_eq. cbn [Library.listfilters Library.showfilters].
  split; [|split].
  - intros key. apply lookup_setitems.
  - intros key. apply lookup_setitems.
  - intros root files name Hentry Hname. rewrite lookup_setitems.
    destruct (last_binding_in (rootname D name) (file_bindings D dirname))
      as (path & -> & Hpath).
    + unfold file_bindings. rewrite flat_map_concat_map, concat_map, map_map.
      apply in_concat. exists (map (rootname D) files). split.
      * apply in_map_iff. exists (root, files). split; [|exact Hentry].
        cbn [snd]. rewrite map_map. reflexivity.
      * apply in_map. exact Hname.
    + unfold file_bindings in Hpath. apply in_flat_map in Hpath.
      destruct Hpath as ([root' files'] & _ & Hin'). cbn [fst snd] in Hin'.
      apply in_map_iff in Hin'. destruct Hin' as (name' & [= Hkey Hjoin] & _).
      exists root', name'. rewrite Hjoin. auto.
Qed.

(** X20.  Scanning the library again changes nothing that can be looked
    up: after a second [_listfiles] over the same directory tree every
    filter name and every directory name stands for what it stood for
    after the first. *)
Theorem listfiles_again (D : Disk) (dirname : string) (lib : Library.t) (key : string) :
  lookup key (Library.listfilters
                (Library._listfiles D dirname (Library._listfiles D dirname lib)))
  = lookup key (Library.listfilters (Library._listfiles D dirname lib))
  /\ lookup key (Library.showfilters
                   (Library._listfiles D dirname (Library._listfiles D dirname lib)))
     = lookup key (Library.showfilters (Library._listfiles D dirname lib)).
Proof.
  rewrite !listfiles_eq. cbn [Library.listfilters Library.showfilters].
  rewrite !lookup_setitems.
  split.
  - destruct (last_binding key (file_bindings D dirname)); reflexivity.
  - destruct (last_binding key (directory_bindings D dirname)); reflexivity.
Qed.

(** The library of the small disk, scanned from empty dictionaries. *)
Example demo_library :
  Library._listfiles DemoDisk.disk "filters" (Library.mk [] [])
  = Library.mk [("V", "filters/Bessel/V.dat"); ("B", "filters/Bessel/B.dat")]
               [("Bessel", ["V"; "B"])].
Proof. reflexivity. Qed.

(** ** The law's default parameters *)

Lemma law_value_zero (Rv w : R) : law_value 0 Rv w = 0.
Proof. unfold law_value, scaled. ring. Qed.

Lemma log10_one : Np.log10 1 = 0.
Proof. unfold Np.log10. rewrite ln_1. unfold Rdiv. ring. Qed.

(** X21.  Called without keyword arguments the law runs with [A = 0] and
    gives zero at every wavelength of its domain, and the extinction
    through the band is zero: with the overlap check passing, the grid
    inside the law's domain and a non-zero band flux, [extinction] under
    ['cardelli'] returns 0. *)
Theorem extinction_default_is_zero (W : World) (band : BandPass.t) (s : StarSpectrum.t)
        (f : Scipy.interp1d_t) (wb ws fl : list R) (lo hi slo shi : R) :
  BandPass.wavelength band = Some wb ->
  BandPass.interpolated_response band = Some f ->
  Scipy.bounds_error f = false ->
  StarSpectrum.wavelength s = Some ws ->
  StarSpectrum.flux s = Some fl ->
  List.length fl = List.length ws ->
  Spec.is_min lo wb -> Spec.is_max hi wb ->
  Spec.is_min slo ws -> Spec.is_max shi ws ->
  ~ Spec.sticks_out lo hi slo shi ->
  lookup "cardelli" (extlaws W) = Some Extinction.cardelli_kw ->
  let g := Spec.grid lo hi ws fl in
  let Rb := Scipy.value_at (kernel W) f in
  Forall (fun w => 0.3 <= 1e4 / w < 10) (map fst g) ->
  Spec.T (fun w fx => fx * Rb w * w) g <> 0 ->
  Extinction.cardelli_kw (map fst g) [] = Ok (map (fun _ => 0) (map fst g))
  /\ StarSpectrum.extinction W band "cardelli" [] s = mk_outcome (Ok 0) s [].
Proof.
  intros Hwb Hf Hbe Hws Hfl Hlen Hlo Hhi Hslo Hshi Hin Hlaw g Rb Hdom Hden.
  assert (Hzero : Extinction.cardelli_kw (map fst g) [] = Ok (map (fun _ => 0) (map fst g))).
  { unfold Extinction.cardelli_kw. cbn [forallb Extinction.kwarg].
    rewrite (cardelli_inside _ 0 3.1 Hdom). f_equal.
    apply map_ext. intros w. apply law_value_zero. }
  split; [exact Hzero|].
  unfold StarSpectrum.extinction, reads. f_equal.
  rewrite (prologue band s wb ws fl lo hi slo shi _ Hwb Hws Hfl Hlen Hlo Hhi Hslo Hshi Hin).
  fold g. rewrite Hlaw.
  rewrite (call_map W band f fst g Hf Hbe). cbn [rbind].
  rewrite (mul_map snd (fun p => Scipy.value_at (kernel W) f (fst p)) g). cbn [rbind].
  rewrite (mul_map (fun p => snd p * Scipy.value_at (kernel W) f (fst p)) fst g).
  cbn [rbind]. rewrite Hzero. cbn [rbind].
  unfold Np.spow, Np.smul. rewrite !map_map.
  rewrite (mul_map (fun p : R * R => snd p * Scipy.value_at (kernel W) f (fst p) * fst p)
                   (fun _ => Rpower 10 (-0.4 * 0)) g).
  cbn [rbind].
  rewrite (trapz_map fst
             (fun p : R * R => snd p * Scipy.value_at (kernel W) f (fst p) * fst p
                               * Rpower 10 (-0.4 * 0)) g).
  cbn [rbind].
  rewrite (band_flux_map W band f fst snd g Hf Hbe). cbn [rbind].
  replace (-0.4 * 0) with 0 by lra. rewrite (Rpower_O 10) by lra.
  rewrite (map_ext (fun p : R * R =>
                      (fst p, snd p * Scipy.value_at (kernel W) f (fst p) * fst p * 1))
                   (fun p : R * R =>
                      (fst p, snd p * Scipy.value_at (kernel W) f (fst p) * fst p)))
    by (intros p; f_equal; ring).
  change (Spec.trapezoid (map (fun p : R * R =>
            (fst p, snd p * Scipy.value_at (kernel W) f (fst p) * fst p)) g))
    with (Spec.T (fun w fx => fx * Rb w * w) g).
  unfold Rdiv. rewrite (Rinv_r _ Hden), log10_one. f_equal. lra.
Qed.

Lemma extinction_default_is_zero_witness :
  StarSpectrum.extinction Demo.world Demo.flat_band "cardelli" [] Demo.flat_star
  = mk_outcome (Ok 0) Demo.flat_star [].
Proof.
  apply (extinction_default_is_zero Demo.world Demo.flat_band Demo.flat_star
           (Scipy.mk_interp1d [5000; 6000] [1; 1] "slinear" false 0)
           [5000; 6000] [4000; 5000; 5500; 6000; 7000] [1; 1; 1; 1; 1]
           5000 6000 4000 7000);
    try reflexivity; try extremum.
  - unfold Spec.sticks_out. lra.
  - rewrite flat_grid. cbn [map fst]. repeat constructor; lra.
  - rewrite flat_numerator. lra.
Defined.
